(** * Lost-and-found backend: claim lifecycle and item visibility

    A shallow embedding of the Express/Mongoose backend
    ([backend/routes/claims.js], [backend/routes/items.js],
    [backend/models/Claim.js], [backend/models/Item.js]) and of the
    claim gate of the item detail page.

    The two collections are finite maps from [_id] to document.  A route
    callback is a function from the request and the database to a response
    and a database; it is the callback that runs after the [auth]
    middleware has called [next()], so it receives [req.user.userId].
    What the callbacks obtain from their surroundings (the [ObjectId] of
    a new document, the readings of the clock) is passed in an [env]. *)

From Stdlib Require Import ZArith NArith Ascii String List Lia.
From stdpp Require Import base option list gmap strings sorting.

Local Open Scope string_scope.

(** [ObjectId]s are 12-byte values; the driver compares them by value. *)
Abbreviation ObjectId := N (only parsing).

(** Date values, as milliseconds since the epoch. *)
Abbreviation Date := Z (only parsing).

(** ** Strings: [trim] as used by the validator chains

    A string is read as its sequence of code units, taken below 256; of
    these, the ones that [\s] matches are 9 to 13, 32 and 160. *)

Definition isSpace (c : ascii) : bool :=
  let n := nat_of_ascii c in
  ((9 <=? n) && (n <=? 13) || (n =? 32) || (n =? 160))%nat.

Fixpoint ltrim (s : string) : string :=
  match s with
  | EmptyString => EmptyString
  | String c s' => if isSpace c then ltrim s' else s
  end.

Fixpoint rtrim (s : string) : string :=
  match s with
  | EmptyString => EmptyString
  | String c s' =>
      match rtrim s' with
      | EmptyString => if isSpace c then EmptyString else String c EmptyString
      | r => String c r
      end
  end.

Definition trim (s : string) : string := ltrim (rtrim s).

(** [isLength({ min, max })] *)
Definition isLength (min max : nat) (s : string) : bool :=
  ((min <=? String.length s) && (String.length s <=? max))%nat.

(** JavaScript truthiness of a string. *)
Definition truthy (s : string) : bool :=
  match s with EmptyString => false | _ => true end.

(** ** Numbers

    A JavaScript number is a double.  The numbers of the backend that
    requests can drive up are non-negative integers: a page number, which
    any string of digits gives, and a view count. *)

(** The double nearest to the integer [n], the one with the even
    significand when [n] lies halfway between two (below the overflow to
    [Infinity], which the routes meet only where they have failed
    already). *)
Definition roundDouble (n : N) : N :=
  let bits := N.size n in
  if (bits <=? 53)%N then n
  else
    let shift := (bits - 53)%N in
    let q := N.shiftr n shift in
    let r := N.land n (N.ones shift) in
    let half := N.shiftl 1 (shift - 1) in
    let q' := if (half <? r)%N || ((r =? half)%N && N.odd q) then (q + 1)%N else q in
    N.shiftl q' shift.

(** [n + 1] for a count [n], a double with a non-negative integer value:
    exact below 2^53; from 2^53 to 2^54 the sum lies halfway between [n]
    and [n + 2] and is rounded to the one with the even significand; from
    2^54 on it is nearer to [n]. *)
Definition plusOne (n : N) : N :=
  if (n <? 2 ^ 53)%N then (n + 1)%N
  else if (n <? 2 ^ 54)%N then (if N.even (N.div2 n) then n else (n + 2)%N)
  else n.

(** ** models/Item.js *)

Inductive itemType := lost | found.
Inductive itemCategory :=
  Electronics | Clothing | Accessories | Keys | Documents | Bags | Sports | Other.
Inductive itemStatus := active | resolved | archived.

#[global] Instance itemType_eq_dec : EqDecision itemType.
Proof. solve_decision. Defined.
#[global] Instance itemCategory_eq_dec : EqDecision itemCategory.
Proof. solve_decision. Defined.
#[global] Instance itemStatus_eq_dec : EqDecision itemStatus.
Proof. solve_decision. Defined.

Module Item.
(** [timestamps: true] also maintains [updatedAt], which no route reads;
    [createdAt] is kept because the listings sort on it. *)
Record t := mk {
  title : string;
  description : string;
  type : itemType;
  category : itemCategory;
  location : string;
  date : Date;
  image : option string;
  contactInfo : option string;
  createdBy : ObjectId;
  status : itemStatus;
  isActive : bool;
  views : N;
  tags : list string;
  createdAt : Date
}.

Definition set_title (v : string) (i : t) : t :=
  mk v (description i) (type i) (category i) (location i) (date i) (image i)
     (contactInfo i) (createdBy i) (status i) (isActive i) (views i) (tags i)
     (createdAt i).
Definition set_description (v : string) (i : t) : t :=
  mk (title i) v (type i) (category i) (location i) (date i) (image i)
     (contactInfo i) (createdBy i) (status i) (isActive i) (views i) (tags i)
     (createdAt i).
Definition set_category (v : itemCategory) (i : t) : t :=
  mk (title i) (description i) (type i) v (location i) (date i) (image i)
     (contactInfo i) (createdBy i) (status i) (isActive i) (views i) (tags i)
     (createdAt i).
Definition set_location (v : string) (i : t) : t :=
  mk (title i) (description i) (type i) (category i) v (date i) (image i)
     (contactInfo i) (createdBy i) (status i) (isActive i) (views i) (tags i)
     (createdAt i).
Definition set_image (v : option string) (i : t) : t :=
  mk (title i) (description i) (type i) (category i) (location i) (date i) v
     (contactInfo i) (createdBy i) (status i) (isActive i) (views i) (tags i)
     (createdAt i).
Definition set_contactInfo (v : option string) (i : t) : t :=
  mk (title i) (description i) (type i) (category i) (location i) (date i)
     (image i) v (createdBy i) (status i) (isActive i) (views i) (tags i)
     (createdAt i).
Definition set_status (v : itemStatus) (i : t) : t :=
  mk (title i) (description i) (type i) (category i) (location i) (date i)
     (image i) (contactInfo i) (createdBy i) v (isActive i) (views i) (tags i)
     (createdAt i).
Definition set_isActive (v : bool) (i : t) : t :=
  mk (title i) (description i) (type i) (category i) (location i) (date i)
     (image i) (contactInfo i) (createdBy i) (status i) v (views i) (tags i)
     (createdAt i).
Definition set_views (v : N) (i : t) : t :=
  mk (title i) (description i) (type i) (category i) (location i) (date i)
     (image i) (contactInfo i) (createdBy i) (status i) (isActive i) v (tags i)
     (createdAt i).

(** The validators of the schema, as [save()] runs them at [time] on a
    new document and again on a loaded one: the required strings are not
    empty, the lengths are within their maxima, and the date is not after
    [new Date()]. *)
Definition schemaValid (time : Date) (i : t) : bool :=
  truthy (title i) && isLength 0 100 (title i)
  && truthy (description i) && isLength 0 1000 (description i)
  && truthy (location i) && isLength 0 200 (location i)
  && (date i <=? time)%Z
  && match contactInfo i with Some c => isLength 0 200 c | None => true end.
End Item.

(** ** models/Claim.js *)

Inductive claimStatus := pending | approved | rejected.

#[global] Instance claimStatus_eq_dec : EqDecision claimStatus.
Proof. solve_decision. Defined.

Module Claim.
Record t := mk {
  item : ObjectId;
  claimedBy : ObjectId;
  message : string;
  status : claimStatus;
  adminNotes : option string;
  resolvedAt : option Date;
  resolvedBy : option ObjectId;
  createdAt : Date
}.

Definition set_status (v : claimStatus) (c : t) : t :=
  mk (item c) (claimedBy c) (message c) v (adminNotes c) (resolvedAt c)
     (resolvedBy c) (createdAt c).
Definition set_adminNotes (v : option string) (c : t) : t :=
  mk (item c) (claimedBy c) (message c) (status c) v (resolvedAt c)
     (resolvedBy c) (createdAt c).
Definition set_resolvedAt (v : option Date) (c : t) : t :=
  mk (item c) (claimedBy c) (message c) (status c) (adminNotes c) v
     (resolvedBy c) (createdAt c).
Definition set_resolvedBy (v : option ObjectId) (c : t) : t :=
  mk (item c) (claimedBy c) (message c) (status c) (adminNotes c)
     (resolvedAt c) v (createdAt c).

(** [claimSchema.pre('save')]: [old] is the status the document was
    loaded with, [None] for a document made with [new]. *)
Definition preSave (old : option claimStatus) (saveTime : Date) (c : t) : t :=
  match old with
  | Some st =>
      if bool_decide (status c ≠ st) && bool_decide (status c ≠ pending)
      then set_resolvedAt (Some saveTime) c else c
  | None =>
      if bool_decide (status c ≠ pending)
      then set_resolvedAt (Some saveTime) c else c
  end.

(** The validators of the schema, as [save()] runs them on a new document
    and again on a loaded one: the length of the message and of the
    notes. *)
Definition schemaValid (c : t) : bool :=
  isLength 20 1000 (message c)
  && match adminNotes c with Some n => isLength 0 500 n | None => true end.
End Claim.

(** ** The database and the surroundings of a request *)

Record db := Db {
  items : gmap N Item.t;
  claims : gmap N Claim.t
}.

Record env := Env {
  oid : ObjectId;     (* the [_id] given to a document made with [new] *)
  now : Date;         (* [new Date()] read by the callback or a method *)
  saveTime : Date;    (* [new Date()] read inside [save()] *)
  itemSaveTime : Date (* [new Date()] read inside the [save()] of the item
                         that [PUT /:claimId] saves after the claim *)
}.

(** A route parameter naming a document: the driver either casts it to an
    [ObjectId] or raises [CastError]. *)
Inductive idParam :=
| BadId (raw : string)
| GoodId (id : ObjectId).

(** ** Responses *)

Inductive reply :=
| Msg (message : string)
| Invalid (message : string)
| WithClaim (message : string) (id : ObjectId) (c : Claim.t)
| ClaimList (cs : list (ObjectId * Claim.t))
| PopulatedClaims (cs : list (ObjectId * Claim.t * Item.t))
| WithItem (message : string) (id : ObjectId) (i : Item.t)
| OneItem (id : ObjectId) (i : Item.t)
| ItemList (l : list (ObjectId * Item.t))
| ItemPage (l : list (ObjectId * Item.t)) (current : Z) (pages : Z) (total : nat).

Record response := Res { code : nat; json : reply }.

(** ** Queries of the driver used by the routes *)

(** Documents of a collection, newest first ([sort({ createdAt: -1 })]). *)
Definition newestFirst {A} (createdAt : A → Z) (l : list (N * A)) : list (N * A) :=
  merge_sort (λ x y, createdAt x.2 >= createdAt y.2)%Z l.

(** [Claim.findOne({ item, claimedBy })] *)
Definition findClaim (itemId user : ObjectId) (cs : gmap N Claim.t)
  : option (N * Claim.t) :=
  head (filter (λ p, Claim.item p.2 = itemId ∧ Claim.claimedBy p.2 = user)
               (map_to_list cs)).

(** Insertion of a new claim: the [_id] index and the unique index on
    [(item, claimedBy)] reject duplicates, and [save()] validates first. *)
Definition insertClaim (id : ObjectId) (c : Claim.t) (cs : gmap N Claim.t)
  : option (gmap N Claim.t) :=
  if negb (Claim.schemaValid c) then None
  else match cs !! id with
       | Some _ => None
       | None =>
           match findClaim (Claim.item c) (Claim.claimedBy c) cs with
           | Some _ => None
           | None => Some (<[id := c]> cs)
           end
       end.

(** [doc.save()] of a document that was loaded from its collection and
    has not been written by anyone since: the validators run again on the
    whole document, and a failure raises before anything is written. *)
Definition saveClaim (e : env) (id : ObjectId) (old c : Claim.t) (s : db)
  : option (Claim.t * db) :=
  let c' := Claim.preSave (Some (Claim.status old)) (saveTime e) c in
  if Claim.schemaValid c'
  then Some (c', Db (items s) (<[id := c']> (claims s)))
  else None.

Definition saveItem (time : Date) (id : ObjectId) (i : Item.t) (s : db)
  : option db :=
  if Item.schemaValid time i
  then Some (Db (<[id := i]> (items s)) (claims s))
  else None.

(** ** routes/claims.js *)

Module ClaimRoutes.

(** [body('message').trim().isLength({ min: 20, max: 1000 })]: the
    sanitised message, or [None] when [validationResult] has errors.  An
    absent field fails the length test. *)
Definition validateMessage (message : option string) : option string :=
  match message with
  | None => None
  | Some m => if isLength 20 1000 (trim m) then Some (trim m) else None
  end.

(** [router.post('/:itemId', auth, ...)] *)
Definition submit (e : env) (user : ObjectId) (itemId : idParam)
    (message : option string) (s : db) : response * db :=
  match validateMessage message with
  | None => (Res 400 (Invalid "Validation failed"), s)
  | Some message =>
    match itemId with
    | BadId _ => (Res 400 (Msg "Invalid item ID"), s)
    | GoodId itemId =>
      match items s !! itemId with
      | None => (Res 404 (Msg "Item not found or no longer available"), s)
      | Some item =>
        if negb (Item.isActive item) || bool_decide (Item.status item ≠ active)
        then (Res 404 (Msg "Item not found or no longer available"), s)
        else if bool_decide (Item.createdBy item = user)
        then (Res 400 (Msg "You cannot claim your own item"), s)
        else
          match findClaim itemId user (claims s) with
          | Some _ =>
              (Res 400 (Msg "You have already submitted a claim for this item"), s)
          | None =>
              let claim :=
                Claim.mk itemId user message pending None None None (saveTime e) in
              match insertClaim (oid e) claim (claims s) with
              | None => (Res 500 (Msg "Server error submitting claim"), s)
              | Some cs =>
                  (Res 201 (WithClaim "Claim submitted successfully" (oid e) claim),
                   Db (items s) cs)
              end
          end
      end
    end
  end.

(** [Claim.getItemClaims] *)
Definition getItemClaims (itemId : ObjectId) (cs : gmap N Claim.t)
  : list (N * Claim.t) :=
  newestFirst Claim.createdAt
    (filter (λ p, Claim.item p.2 = itemId) (map_to_list cs)).

(** [router.get('/item/:itemId', auth, ...)] *)
Definition itemClaims (user : ObjectId) (itemId : idParam) (s : db)
  : response * db :=
  match itemId with
  | BadId _ => (Res 400 (Msg "Invalid item ID"), s)
  | GoodId itemId =>
    match items s !! itemId with
    | None => (Res 404 (Msg "Item not found"), s)
    | Some item =>
      if negb (Item.isActive item) then (Res 404 (Msg "Item not found"), s)
      else if bool_decide (Item.createdBy item ≠ user)
      then (Res 403 (Msg "Not authorized to view claims for this item"), s)
      else (Res 200 (ClaimList (getItemClaims itemId (claims s))), s)
    end
  end.

(** [Claim.getUserClaims] *)
Definition getUserClaims (userId : ObjectId) (cs : gmap N Claim.t)
  : list (N * Claim.t) :=
  newestFirst Claim.createdAt
    (filter (λ p, Claim.claimedBy p.2 = userId) (map_to_list cs)).

(** [router.get('/mine', auth, ...)] *)
Definition myClaims (user : ObjectId) (s : db) : response * db :=
  (Res 200 (ClaimList (getUserClaims user (claims s))), s).

(** [populate({ path: 'item', match: { createdBy: userId } })]: the item
    the claim refers to when it exists and matches, [null] otherwise.
    ([select] only narrows the fields that are sent.) *)
Definition populateItemOwnedBy (userId : ObjectId) (its : gmap N Item.t)
    (c : Claim.t) : option Item.t :=
  match its !! Claim.item c with
  | Some i => if bool_decide (Item.createdBy i = userId) then Some i else None
  | None => None
  end.

(** [Claim.getPendingClaimsForUser] *)
Definition getPendingClaimsForUser (userId : ObjectId) (s : db)
  : list (N * Claim.t * option Item.t) :=
  (λ p, (p, populateItemOwnedBy userId (items s) p.2))
    <$> newestFirst Claim.createdAt
          (filter (λ p, Claim.status p.2 = pending) (map_to_list (claims s))).

(** [claims.filter(claim => claim.item)] *)
Definition validClaims (l : list (N * Claim.t * option Item.t))
  : list (N * Claim.t * Item.t) :=
  omap (λ p, match p.2 with Some i => Some (p.1, i) | None => None end) l.

(** [router.get('/pending', auth, ...)] *)
Definition pendingClaims (user : ObjectId) (s : db) : response * db :=
  (Res 200 (PopulatedClaims (validClaims (getPendingClaimsForUser user s))), s).

(** [claimSchema.methods.approve], up to its [save()] *)
Definition approve (e : env) (approvedBy : ObjectId) (c : Claim.t) : Claim.t :=
  Claim.set_resolvedAt (Some (now e))
    (Claim.set_resolvedBy (Some approvedBy) (Claim.set_status approved c)).

(** [claimSchema.methods.reject], up to its [save()]; [notes] defaults
    to the empty string. *)
Definition reject (e : env) (rejectedBy : ObjectId) (notes : option string)
    (c : Claim.t) : Claim.t :=
  let notes := default "" notes in
  let c := Claim.set_resolvedAt (Some (now e))
             (Claim.set_resolvedBy (Some rejectedBy) (Claim.set_status rejected c)) in
  if truthy notes then Claim.set_adminNotes (Some notes) c else c.

(** The body of [PUT /:claimId]. *)
Record resolveBody := ResolveBody {
  rb_status : option string;
  rb_adminNotes : option string
}.

(** [body('status').isIn(['approved', 'rejected'])] and
    [body('adminNotes').optional().trim().isLength({ max: 500 })]: the
    decision and the sanitised notes, or [None] on a validation error. *)
Definition validateResolve (b : resolveBody) : option (claimStatus * option string) :=
  let decision :=
    match rb_status b with
    | Some st =>
        if String.eqb st "approved" then Some approved
        else if String.eqb st "rejected" then Some rejected
        else None
    | None => None
    end in
  match decision with
  | None => None
  | Some d =>
      match rb_adminNotes b with
      | None => Some (d, None)
      | Some n => if isLength 0 500 (trim n) then Some (d, Some (trim n)) else None
      end
  end.

(** [router.put('/:claimId', auth, ...)] *)
Definition resolve (e : env) (user : ObjectId) (claimId : idParam)
    (b : resolveBody) (s : db) : response * db :=
  match validateResolve b with
  | None => (Res 400 (Invalid "Validation failed"), s)
  | Some (status, adminNotes) =>
    match claimId with
    | BadId _ => (Res 400 (Msg "Invalid claim ID"), s)
    | GoodId claimId =>
      match claims s !! claimId with
      | None => (Res 404 (Msg "Claim not found"), s)
      | Some claim =>
        match items s !! Claim.item claim with
        | None =>
            (* [claim.item] is [null]: reading [createdBy] throws *)
            (Res 500 (Msg "Server error updating claim"), s)
        | Some item =>
          if bool_decide (Item.createdBy item ≠ user)
          then (Res 403 (Msg "Not authorized to update this claim"), s)
          else if bool_decide (Claim.status claim ≠ pending)
          then (Res 400 (Msg "Claim has already been processed"), s)
          else if bool_decide (status = approved)
          then
            match saveClaim e claimId claim (approve e user claim) s with
            | None => (Res 500 (Msg "Server error updating claim"), s)
            | Some (claim', s1) =>
                match saveItem (itemSaveTime e) (Claim.item claim)
                        (Item.set_status resolved item) s1 with
                | None => (Res 500 (Msg "Server error updating claim"), s1)
                | Some s2 =>
                    (Res 200 (WithClaim "Claim approved successfully" claimId claim'),
                     s2)
                end
            end
          else
            match saveClaim e claimId claim (reject e user adminNotes claim) s with
            | None => (Res 500 (Msg "Server error updating claim"), s)
            | Some (claim', s1) =>
                (Res 200 (WithClaim "Claim rejected successfully" claimId claim'), s1)
            end
        end
      end
    end
  end.

(** [router.delete('/:claimId', auth, ...)] *)
Definition remove (user : ObjectId) (claimId : idParam) (s : db)
  : response * db :=
  match claimId with
  | BadId _ => (Res 400 (Msg "Invalid claim ID"), s)
  | GoodId claimId =>
    match claims s !! claimId with
    | None => (Res 404 (Msg "Claim not found"), s)
    | Some claim =>
      if bool_decide (Claim.claimedBy claim ≠ user)
      then (Res 403 (Msg "Not authorized to delete this claim"), s)
      else if bool_decide (Claim.status claim ≠ pending)
      then (Res 400 (Msg "Cannot delete processed claims"), s)
      else (Res 200 (Msg "Claim deleted successfully"),
            Db (items s) (delete claimId (claims s)))
    end
  end.

End ClaimRoutes.

(** ** routes/claims.js: [PUT /:claimId], turn by turn

    The callback of [PUT /:claimId] gives way at each [await]: after the
    query for the claim is sent, after the query that populates its item
    is sent, after the claim is saved and, on an approval, after the item
    is saved.  Between two of its turns the server can serve the turns of
    other requests.  The checks are made on the documents as they were
    loaded. *)

Module Overlap.

Record call := Call {
  surroundings : env;
  user : ObjectId;
  claimId : idParam;
  body : ClaimRoutes.resolveBody
}.

(** Where a call stands, with what it holds in memory. *)
Inductive stage :=
| Arrived
| Found (decision : claimStatus) (notes : option string) (id : ObjectId)
    (claim : Claim.t)
| Populated (decision : claimStatus) (notes : option string) (id : ObjectId)
    (claim : Claim.t) (item : option Item.t)
| ClaimSaved (id : ObjectId) (claim : Claim.t) (item : Item.t)
| Answered (a : response).

(** The value that [save()] writes to a path: the path is sent only when
    the document in memory differs there from the one that was loaded. *)
Definition written {A} `{EqDecision A} (loaded memory stored : A) : A :=
  if bool_decide (memory = loaded) then stored else memory.

(** [claim.save()]: validation, the pre-save hook, then an update of the
    modified paths of the stored document; no document to update is an
    error. *)
Definition writeClaim (e : env) (id : ObjectId) (loaded memory : Claim.t) (s : db)
  : option (Claim.t * db) :=
  let memory := Claim.preSave (Some (Claim.status loaded)) (saveTime e) memory in
  if negb (Claim.schemaValid memory) then None
  else
    match claims s !! id with
    | None => None
    | Some stored =>
        let stored' :=
          Claim.mk (Claim.item stored) (Claim.claimedBy stored)
            (Claim.message stored)
            (written (Claim.status loaded) (Claim.status memory) (Claim.status stored))
            (written (Claim.adminNotes loaded) (Claim.adminNotes memory)
               (Claim.adminNotes stored))
            (written (Claim.resolvedAt loaded) (Claim.resolvedAt memory)
               (Claim.resolvedAt stored))
            (written (Claim.resolvedBy loaded) (Claim.resolvedBy memory)
               (Claim.resolvedBy stored))
            (Claim.createdAt stored) in
        Some (memory, Db (items s) (<[id := stored']> (claims s)))
    end.

(** [claim.item.status = 'resolved'; claim.item.save()] *)
Definition writeItem (time : Date) (id : ObjectId) (loaded : Item.t) (s : db)
  : option db :=
  if negb (Item.schemaValid time (Item.set_status resolved loaded)) then None
  else if bool_decide (Item.status loaded = resolved) then Some s
  else
    match items s !! id with
    | None => None
    | Some stored =>
        Some (Db (<[id := Item.set_status resolved stored]> (items s)) (claims s))
    end.

(** One turn of a call. *)
Definition turn (c : call) (st : stage) (s : db) : stage * db :=
  let e := surroundings c in
  match st with
  | Arrived =>
      match ClaimRoutes.validateResolve (body c) with
      | None => (Answered (Res 400 (Invalid "Validation failed")), s)
      | Some (status, adminNotes) =>
          match claimId c with
          | BadId _ => (Answered (Res 400 (Msg "Invalid claim ID")), s)
          | GoodId id =>
              match claims s !! id with
              | None => (Answered (Res 404 (Msg "Claim not found")), s)
              | Some claim => (Found status adminNotes id claim, s)
              end
          end
      end
  | Found status adminNotes id claim =>
      (Populated status adminNotes id claim (items s !! Claim.item claim), s)
  | Populated status adminNotes id claim None =>
      (Answered (Res 500 (Msg "Server error updating claim")), s)
  | Populated status adminNotes id claim (Some item) =>
      if bool_decide (Item.createdBy item ≠ user c)
      then (Answered (Res 403 (Msg "Not authorized to update this claim")), s)
      else if bool_decide (Claim.status claim ≠ pending)
      then (Answered (Res 400 (Msg "Claim has already been processed")), s)
      else if bool_decide (status = approved)
      then
        match writeClaim e id claim (ClaimRoutes.approve e (user c) claim) s with
        | None => (Answered (Res 500 (Msg "Server error updating claim")), s)
        | Some (claim', s1) => (ClaimSaved id claim' item, s1)
        end
      else
        match writeClaim e id claim
                (ClaimRoutes.reject e (user c) adminNotes claim) s with
        | None => (Answered (Res 500 (Msg "Server error updating claim")), s)
        | Some (claim', s1) =>
            (Answered (Res 200 (WithClaim "Claim rejected successfully" id claim')),
             s1)
        end
  | ClaimSaved id claim item =>
      match writeItem (itemSaveTime e) (Claim.item claim) item s with
      | None => (Answered (Res 500 (Msg "Server error updating claim")), s)
      | Some s2 =>
          (Answered (Res 200 (WithClaim "Claim approved successfully" id claim)), s2)
      end
  | Answered a => (Answered a, s)
  end.

(** A call that is served without any other turn in between. *)
Definition alone (c : call) (s : db) : stage * db :=
  let '(st1, s1) := turn c Arrived s in
  let '(st2, s2) := turn c st1 s1 in
  let '(st3, s3) := turn c st2 s2 in
  turn c st3 s3.

(** The calls in flight take their turns as the schedule names them. *)
Fixpoint serve (calls : list call) (schedule : list nat) (stages : list stage)
    (s : db) : list stage * db :=
  match schedule with
  | [] => (stages, s)
  | k :: schedule =>
      match calls !! k, stages !! k with
      | Some c, Some st =>
          let '(st', s') := turn c st s in
          serve calls schedule (<[k := st']> stages) s'
      | _, _ => serve calls schedule stages s
      end
  end.

End Overlap.

(** ** models/Item.js: statics, and routes/items.js *)

Definition typeName (t : itemType) : string :=
  match t with lost => "lost" | found => "found" end.

Definition categoryName (c : itemCategory) : string :=
  match c with
  | Electronics => "Electronics" | Clothing => "Clothing"
  | Accessories => "Accessories" | Keys => "Keys" | Documents => "Documents"
  | Bags => "Bags" | Sports => "Sports" | Other => "Other"
  end.

Definition allTypes : list itemType := [lost; found].
Definition allCategories : list itemCategory :=
  [Electronics; Clothing; Accessories; Keys; Documents; Bags; Sports; Other].

(** The member of an enumeration that a request string names, if any. *)
Definition parseEnum {A} (name : A → string) (all : list A) (s : string) : option A :=
  head (filter (λ a, name a = s) all).

(** A numeric query parameter, as [isInt] reads it. *)
Inductive qnum :=
| NotInt
| IsInt (z : Z).

Module ItemRoutes.
Section Store.

(** What the routes delegate to the database server and to the date
    library: a case-insensitive [$regex] ([None] when the server rejects
    the pattern), the [$text] index, [isDate], and [new Date(string)]
    ([None] for an invalid date, which the driver refuses to cast). *)
Variable regexI : string → option (string → bool).
Variable textSearch : string → Item.t → bool.
Variable isDate : string → bool.
Variable parseDate : string → option Z.

(** The [filters] object handed to [getFilteredItems]; an absent key is
    [None]. *)
Record filters := Filters {
  f_type : option string;
  f_category : option string;
  f_location : option string;
  f_search : option string;
  f_dateFrom : option string;
  f_dateTo : option string
}.

(** The query document built by [getFilteredItems]. *)
Record query := Query {
  q_isActive : bool;
  q_status : itemStatus;
  q_type : option string;
  q_category : option string;
  q_location : option string;
  q_text : option string;
  q_date : option (option string * option string)
}.

Definition given (o : option string) : option string :=
  match o with
  | Some v => if truthy v then Some v else None
  | None => None
  end.

Definition notAll (o : option string) : option string :=
  match given o with
  | Some v => if String.eqb v "all" then None else Some v
  | None => None
  end.

Definition buildQuery (f : filters) : query :=
  Query true active
    (notAll (f_type f))
    (notAll (f_category f))
    (given (f_location f))
    (given (f_search f))
    (match given (f_dateFrom f), given (f_dateTo f) with
     | None, None => None
     | from, to => Some (from, to)
     end).

(** One condition of a query on an optional key. *)
Definition cond {A} (o : option A) (test : A → bool) : bool :=
  match o with Some v => test v | None => true end.

(** The [$regex] of the query, compiled by the server. *)
Definition compileLocation (o : option string) : option (option (string → bool)) :=
  match o with
  | Some pat => Some <$> regexI pat
  | None => Some None
  end.

(** A bound of the date range, cast by the driver. *)
Definition castBound (o : option string) : option (option Z) :=
  match o with
  | Some d => Some <$> parseDate d
  | None => Some None
  end.

Definition castRange (o : option (option string * option string))
  : option (option Z * option Z) :=
  match o with
  | None => Some (None, None)
  | Some (from, to) => lo ← castBound from; hi ← castBound to; Some (lo, hi)
  end.

Definition satisfies (q : query) (re : option (string → bool))
    (range : option Z * option Z) (i : Item.t) : bool :=
  bool_decide (Item.isActive i = q_isActive q)
  && bool_decide (Item.status i = q_status q)
  && cond (q_type q) (λ t, String.eqb (typeName (Item.type i)) t)
  && cond (q_category q) (λ c, String.eqb (categoryName (Item.category i)) c)
  && cond re (λ r, r (Item.location i))
  && cond (q_text q) (λ t, textSearch t i)
  && cond range.1 (λ lo, (lo <=? Item.date i)%Z)
  && cond range.2 (λ hi, (Item.date i <=? hi)%Z).

(** The predicate a query denotes, or [None] when the server or the
    driver raises on it. *)
Definition compile (q : query) : option (Item.t → bool) :=
  re ← compileLocation (q_location q);
  range ← castRange (q_date q);
  Some (satisfies q re range).

(** [this.find(query)] *)
Definition find (q : query) (its : gmap N Item.t) : option (list (N * Item.t)) :=
  p ← compile q; Some (filter (λ x, p x.2 = true) (map_to_list its)).

(** [itemSchema.statics.getFilteredItems], up to the paging that the
    route chains onto it. *)
Definition getFilteredItems (f : filters) (its : gmap N Item.t)
  : option (list (N * Item.t)) :=
  newestFirst Item.createdAt <$> find (buildQuery f) its.

(** [itemSchema.statics.getUserItems] *)
Definition getUserItems (userId : ObjectId) (its : gmap N Item.t)
  : list (N * Item.t) :=
  newestFirst Item.createdAt
    (filter (λ x, Item.createdBy x.2 = userId ∧ Item.isActive x.2 = true)
            (map_to_list its)).

(** The query string of [GET /]. *)
Record listQuery := ListQuery {
  lq_type : option string;
  lq_category : option string;
  lq_location : option string;
  lq_search : option string;
  lq_page : option qnum;
  lq_limit : option qnum;
  lq_dateFrom : option string;
  lq_dateTo : option string
}.

Definition optionalIn (allowed : list string) (o : option string) : bool :=
  match o with Some v => bool_decide (v ∈ allowed) | None => true end.

Definition optionalInt (min : Z) (max : option Z) (o : option qnum) : bool :=
  match o with
  | None => true
  | Some NotInt => false
  | Some (IsInt z) => (min <=? z)%Z && cond max (λ m, (z <=? m)%Z)
  end.

Definition validList (q : listQuery) : bool :=
  optionalIn ((typeName <$> allTypes) ++ ["all"]) (lq_type q)
  && optionalIn ((categoryName <$> allCategories) ++ ["all"]) (lq_category q)
  && optionalInt 1 None (lq_page q)
  && optionalInt 1 (Some 50%Z) (lq_limit q).

Definition qnumValue (d : Z) (o : option qnum) : Z :=
  match o with Some (IsInt z) => z | _ => d end.

(** [type !== 'all' ? type : undefined], with the default ['all']. *)
Definition unlessAll (o : option string) : option string :=
  match o with
  | Some v => if String.eqb v "all" then None else Some v
  | None => None
  end.

(** [Math.ceil(total / limit)] for a positive [limit]; a count is far
    below 2^48, up to where the quotient of the doubles has the ceiling of
    the exact quotient. *)
Definition pageCount (total : nat) (limit : Z) : Z :=
  ((Z.of_nat total + limit - 1) / limit)%Z.

(** [page] as the number that [page - 1] and [parseInt(page)] make of the
    string of digits. *)
Definition pageNumber (o : option qnum) : N :=
  roundDouble (Z.to_N (qnumValue 1 o)).

(** [(page - 1) * limit], each operation rounding to a double. *)
Definition skipCount (page limit : N) : N :=
  roundDouble (roundDouble (page - 1) * limit).

(** [.skip(n)] on the matches. *)
Definition skipDocs {A} (n : N) (l : list A) : list A :=
  if (N.of_nat (length l) <=? n)%N then [] else drop (N.to_nat n) l.

(** [router.get('/', ...)]; the server takes a [skip] below 2^63 only and
    raises on any other. *)
Definition listItems (q : listQuery) (s : db) : response * db :=
  if negb (validList q) then (Res 400 (Invalid "Invalid query parameters"), s)
  else
    let page := pageNumber (lq_page q) in
    let limit := qnumValue 20 (lq_limit q) in
    let skip := skipCount page (Z.to_N limit) in
    let f := Filters (unlessAll (lq_type q)) (unlessAll (lq_category q))
               (trim <$> lq_location q) (trim <$> lq_search q)
               (lq_dateFrom q) (lq_dateTo q) in
    if (2 ^ 63 <=? skip)%N then (Res 500 (Msg "Server error fetching items"), s)
    else
      match getFilteredItems f (items s) with
      | None => (Res 500 (Msg "Server error fetching items"), s)
      | Some all =>
          let shown := take (Z.to_nat limit) (skipDocs skip all) in
          (Res 200 (ItemPage shown (Z.of_N page) (pageCount (length all) limit)
                      (length all)), s)
      end.

(** [router.get('/user/mine', auth, ...)] *)
Definition myItems (user : ObjectId) (s : db) : response * db :=
  (Res 200 (ItemList (getUserItems user (items s))), s).

(** [itemSchema.methods.incrementViews] *)
Definition incrementViews (time : Date) (id : ObjectId) (i : Item.t) (s : db)
  : option (Item.t * db) :=
  let i' := Item.set_views (plusOne (Item.views i)) i in
  s' ← saveItem time id i' s; Some (i', s').

(** [router.get('/:id', ...)] *)
Definition view (e : env) (id : idParam) (s : db) : response * db :=
  match id with
  | BadId _ => (Res 400 (Msg "Invalid item ID"), s)
  | GoodId id =>
    match items s !! id with
    | None => (Res 404 (Msg "Item not found"), s)
    | Some item =>
      if negb (Item.isActive item) then (Res 404 (Msg "Item not found"), s)
      else match incrementViews (saveTime e) id item s with
           | None => (Res 500 (Msg "Server error fetching item"), s)
           | Some (item', s') => (Res 200 (OneItem id item'), s')
           end
    end
  end.

(** The body of [POST /] and of [PUT /:id], with the uploaded file's
    path when there is one. *)
Record itemBody := ItemBody {
  b_title : option string;
  b_description : option string;
  b_type : option string;
  b_category : option string;
  b_location : option string;
  b_date : option string;
  b_contactInfo : option string;
  b_file : option string
}.

(** [notEmpty().trim().isLength({ min, max })] on a required field. *)
Definition requiredText (min max : nat) (o : option string) : option string :=
  match o with
  | Some v => if truthy v && isLength min max (trim v) then Some (trim v) else None
  | None => None
  end.

(** [router.post('/', auth, upload.single('image'), ...)] *)
Definition create (e : env) (user : ObjectId) (b : itemBody) (s : db)
  : response * db :=
  let checked :=
    title ← requiredText 3 100 (b_title b);
    description ← requiredText 10 1000 (b_description b);
    type ← b_type b ≫= parseEnum typeName allTypes;
    category ← b_category b ≫= parseEnum categoryName allCategories;
    location ← (match b_location b with
                | Some v => if truthy v then Some (trim v) else None
                | None => None
                end);
    date ← (match b_date b with
            | Some d => if isDate d then Some d else None
            | None => None
            end);
    Some (title, description, type, category, location, date) in
  match checked with
  | None => (Res 400 (Invalid "Validation failed"), s)
  | Some (title, description, type, category, location, date) =>
    match parseDate date with
    | None => (Res 500 (Msg "Error creating item"), s)
    | Some date =>
      let newItem :=
        Item.mk title description type category location date
          (trim <$> b_file b) (trim <$> b_contactInfo b) user active true 0 []
          (saveTime e) in
      if Item.schemaValid (saveTime e) newItem
      then match items s !! oid e with
           | Some _ => (Res 500 (Msg "Error creating item"), s)
           | None =>
               (Res 201 (OneItem (oid e) newItem),
                Db (<[oid e := newItem]> (items s)) (claims s))
           end
      else (Res 500 (Msg "Error creating item"), s)
    end
  end.

(** [optional()....] on a field of [PUT /:id]: [Some None] when the
    field is absent, [Some (Some v)] for the sanitised value, [None] on a
    validation error. *)
Definition optionalText (min max : nat) (o : option string)
  : option (option string) :=
  match o with
  | None => Some None
  | Some v => if isLength min max (trim v) then Some (Some (trim v)) else None
  end.

Definition assign {A B} (o : option A) (set : A → B → B) (x : B) : B :=
  match o with Some v => set v x | None => x end.

(** [router.put('/:id', auth, upload.single('image'), ...)] *)
Definition edit (e : env) (user : ObjectId) (id : idParam) (b : itemBody)
    (s : db) : response * db :=
  let checked :=
    title ← optionalText 3 100 (b_title b);
    description ← optionalText 10 1000 (b_description b);
    category ← (match b_category b with
                | None => Some None
                | Some c => Some <$> parseEnum categoryName allCategories c
                end);
    location ← optionalText 3 200 (b_location b);
    contactInfo ← optionalText 0 200 (b_contactInfo b);
    Some (title, description, category, location, contactInfo) in
  match checked with
  | None => (Res 400 (Invalid "Validation failed"), s)
  | Some (title, description, category, location, contactInfo) =>
    match id with
    | BadId _ => (Res 400 (Msg "Invalid item ID"), s)
    | GoodId id =>
      match items s !! id with
      | None => (Res 404 (Msg "Item not found"), s)
      | Some item =>
        if negb (Item.isActive item) then (Res 404 (Msg "Item not found"), s)
        else if bool_decide (Item.createdBy item ≠ user)
        then (Res 403 (Msg "Not authorized to update this item"), s)
        else
          let item :=
            assign contactInfo (λ v, Item.set_contactInfo (Some v))
              (assign location Item.set_location
                (assign category Item.set_category
                  (assign description Item.set_description
                    (assign title Item.set_title item)))) in
          let item :=
            assign (b_file b) (λ v, Item.set_image (Some (trim v))) item in
          match saveItem (saveTime e) id item s with
          | None => (Res 500 (Msg "Server error updating item"), s)
          | Some s' => (Res 200 (WithItem "Item updated successfully" id item), s')
          end
      end
    end
  end.

(** [router.delete('/:id', auth, ...)]: soft delete *)
Definition remove (e : env) (user : ObjectId) (id : idParam) (s : db)
  : response * db :=
  match id with
  | BadId _ => (Res 400 (Msg "Invalid item ID"), s)
  | GoodId id =>
    match items s !! id with
    | None => (Res 404 (Msg "Item not found"), s)
    | Some item =>
      if negb (Item.isActive item) then (Res 404 (Msg "Item not found"), s)
      else if bool_decide (Item.createdBy item ≠ user)
      then (Res 403 (Msg "Not authorized to delete this item"), s)
      else match saveItem (saveTime e) id (Item.set_isActive false item) s with
           | None => (Res 500 (Msg "Server error deleting item"), s)
           | Some s' => (Res 200 (Msg "Item deleted successfully"), s')
           end
    end
  end.

(** [router.patch('/:id/resolve', auth, ...)] *)
Definition resolve (e : env) (user : ObjectId) (id : idParam) (s : db)
  : response * db :=
  match id with
  | BadId _ => (Res 400 (Msg "Invalid item ID"), s)
  | GoodId id =>
    match items s !! id with
    | None => (Res 404 (Msg "Item not found"), s)
    | Some item =>
      if negb (Item.isActive item) then (Res 404 (Msg "Item not found"), s)
      else if bool_decide (Item.createdBy item ≠ user)
      then (Res 403 (Msg "Not authorized to resolve this item"), s)
      else let item := Item.set_status resolved item in
           match saveItem (saveTime e) id item s with
           | None => (Res 500 (Msg "Server error resolving item"), s)
           | Some s' => (Res 200 (WithItem "Item marked as resolved" id item), s')
           end
    end
  end.

End Store.
End ItemRoutes.

(** ** pages/ItemDetails.tsx: the gate of the claim button *)

(** [user] is [null] for a visitor who is not logged in. *)
Definition isOwner (user : option ObjectId) (item : Item.t) : bool :=
  match user with
  | Some userId => bool_decide (userId = Item.createdBy item)
  | None => false
  end.

Definition canBeClaimed (user : option ObjectId) (item : Item.t) : bool :=
  bool_decide (Item.type item = found) && negb (isOwner user item).

(** ** The server: requests, and runs of requests

    [handle] is a callback run from its first statement to its answer
    without a turn of another request in between, and [run] serves a list
    of requests in this way, one after the other.  The callbacks are
    [async]: what requests that overlap can do is modelled, turn by turn,
    for [PUT /:claimId] in [Overlap]. *)

Module Server.
Section Store.

Variable regexI : string → option (string → bool).
Variable textSearch : string → Item.t → bool.
Variable isDate : string → bool.
Variable parseDate : string → option Z.

Inductive request :=
| PostClaim (user : ObjectId) (itemId : idParam) (message : option string)
| GetItemClaims (user : ObjectId) (itemId : idParam)
| GetMyClaims (user : ObjectId)
| GetPendingClaims (user : ObjectId)
| PutClaim (user : ObjectId) (claimId : idParam) (b : ClaimRoutes.resolveBody)
| DeleteClaim (user : ObjectId) (claimId : idParam)
| GetItems (q : ItemRoutes.listQuery)
| GetMyItems (user : ObjectId)
| GetItem (id : idParam)
| PostItem (user : ObjectId) (b : ItemRoutes.itemBody)
| PutItem (user : ObjectId) (id : idParam) (b : ItemRoutes.itemBody)
| DeleteItem (user : ObjectId) (id : idParam)
| PatchItemResolve (user : ObjectId) (id : idParam).

Definition handle (e : env) (r : request) (s : db) : response * db :=
  match r with
  | PostClaim user itemId message => ClaimRoutes.submit e user itemId message s
  | GetItemClaims user itemId => ClaimRoutes.itemClaims user itemId s
  | GetMyClaims user => ClaimRoutes.myClaims user s
  | GetPendingClaims user => ClaimRoutes.pendingClaims user s
  | PutClaim user claimId b => ClaimRoutes.resolve e user claimId b s
  | DeleteClaim user claimId => ClaimRoutes.remove user claimId s
  | GetItems q => ItemRoutes.listItems regexI textSearch parseDate q s
  | GetMyItems user => ItemRoutes.myItems user s
  | GetItem id => ItemRoutes.view e id s
  | PostItem user b => ItemRoutes.create isDate parseDate e user b s
  | PutItem user id b => ItemRoutes.edit e user id b s
  | DeleteItem user id => ItemRoutes.remove e user id s
  | PatchItemResolve user id => ItemRoutes.resolve e user id s
  end.

(** Requests that are served one after the other, none arriving before
    the one before it is answered; each comes with its own surroundings.
    (What overlapping [PUT /:claimId] do is in [Overlap].) *)
Fixpoint run (rs : list (env * request)) (s : db) : list response * db :=
  match rs with
  | [] => ([], s)
  | (e, r) :: rs =>
      let '(a, s1) := handle e r s in
      let '(as_, s2) := run rs s1 in
      (a :: as_, s2)
  end.

(** Whether [a] is the answer of a [PUT /:claimId] on [claimId] that
    went through. *)
Definition resolved (claimId : ObjectId) (r : request) (a : response) : bool :=
  match r with
  | PutClaim _ (GoodId id) _ => bool_decide (id = claimId) && bool_decide (code a = 200)
  | _ => false
  end.

(** The number of [PUT /:claimId] on [claimId] that go through in a run. *)
Fixpoint resolutions (claimId : ObjectId) (rs : list (env * request)) (s : db) : nat :=
  match rs with
  | [] => 0
  | (e, r) :: rs =>
      let '(a, s1) := handle e r s in
      (if resolved claimId r a then 1 else 0) + resolutions claimId rs s1
  end.

End Store.
End Server.

(** The items that the answer to [GET /items] carries. *)
Definition listed (a : response) : list (ObjectId * Item.t) :=
  match json a with ItemPage l _ _ _ => l | _ => [] end.

(** ** A scenario

    Alice reports a found wallet and a lost umbrella; two older reports of
    hers are archived and deleted.  Bob claims the wallet. *)

Module Scenario.

Definition alice : ObjectId := 1.
Definition bob : ObjectId := 2.

Definition wallet : Item.t :=
  Item.mk "Black wallet" "Leather wallet with two cards" found Accessories
    "Main gate" 1000 None None alice active true 0 [] 1100.
Definition umbrella : Item.t :=
  Item.mk "Red umbrella" "Folding umbrella, red, wooden handle" lost Other
    "Library" 1200 None None alice active true 0 [] 1300.
Definition keys : Item.t :=
  Item.mk "Bunch of keys" "Three keys on a blue ring" found Keys
    "Car park" 500 None None alice archived true 4 [] 600.
Definition scarf : Item.t :=
  Item.mk "Wool scarf" "Grey scarf left on a bench" found Clothing
    "Canteen" 700 None None alice resolved false 2 [] 800.

Definition itemsOfAlice : gmap N Item.t :=
  {[ 10%N := wallet; 11%N := umbrella; 12%N := keys; 13%N := scarf ]}.

Definition text : string := "It is mine, my name is inside it.".

Definition onWallet : Claim.t :=
  Claim.mk 10 bob text pending None None None 2000.
Definition onScarf : Claim.t :=
  Claim.mk 13 bob text pending None None None 2100.
Definition onKeys : Claim.t :=
  Claim.mk 12 bob text approved None (Some 2300%Z) (Some alice) 2200.
Definition onNothing : Claim.t :=
  Claim.mk 99 bob text pending None None None 2400.

(** Before any claim, and with the four claims above. *)
Definition fresh : db := Db itemsOfAlice ∅.
Definition claimed : db :=
  Db itemsOfAlice
     {[ 100%N := onWallet; 101%N := onScarf; 102%N := onKeys; 103%N := onNothing ]}.

Definition surroundings : env := Env 200 3000 3001 3002.

Definition approveIt : ClaimRoutes.resolveBody :=
  ClaimRoutes.ResolveBody (Some "approved") None.
Definition rejectIt : ClaimRoutes.resolveBody :=
  ClaimRoutes.ResolveBody (Some "rejected") (Some " not yours ").

(** Stand-ins for the services of the database server and of the date
    library: every pattern matches, text search finds everything, and
    no string is a date. *)
Definition anyRegex : string → option (string → bool) := λ _, Some (λ _, true).
Definition anyText : string → Item.t → bool := λ _ _, true.
Definition noDate : string → bool := λ _, false.
Definition noParse : string → option Z := λ _, None.

Definition everything : ItemRoutes.listQuery :=
  ItemRoutes.ListQuery None None None None None None None None.

Definition retitle : ItemRoutes.itemBody :=
  ItemRoutes.ItemBody (Some "Brown wallet") None None None None None None None.

(** Bob claims the wallet twice; Alice approves the claim, then tries to
    reject it. *)
Definition story : list (env * Server.request) :=
  [ (Env 200 3000 3001 3002, Server.PostClaim bob (GoodId 10) (Some text));
    (Env 201 3100 3101 3102, Server.PostClaim bob (GoodId 10) (Some text));
    (Env 202 3200 3201 3202, Server.PutClaim alice (GoodId 200) approveIt);
    (Env 203 3300 3301 3302, Server.PutClaim alice (GoodId 200) rejectIt) ].

End Scenario.

(** ** config/database.js: aggregation queries for analytics *)

Module Database.

(** [{ $sum: { $cond: [test, 1, 0] } }] over the documents of a group *)
Definition sumCond {A} (test : A → bool) (docs : list A) : nat :=
  sum_list_with (λ d, if test d then 1 else 0) docs.

Definition isLost (i : Item.t) : bool := bool_decide (Item.type i = lost).
Definition isFound (i : Item.t) : bool := bool_decide (Item.type i = found).
Definition isResolved (i : Item.t) : bool := bool_decide (Item.status i = resolved).

Record itemStats := ItemStats {
  totalItems : nat;
  lostItems : nat;
  foundItems : nat;
  resolvedItems : nat
}.

(** [getItemStats]: one group over the active items; [stats[0]] is
    undefined when no item is active, and the zeros are returned. *)
Definition getItemStats (its : gmap N Item.t) : itemStats :=
  let docs := filter (λ i, Item.isActive i = true) (snd <$> map_to_list its) in
  let stats :=
    match docs with
    | [] => []
    | _ => [ItemStats (sum_list_with (λ _, 1) docs) (sumCond isLost docs)
              (sumCond isFound docs) (sumCond isResolved docs)]
    end in
  default (ItemStats 0 0 0 0) (head stats).

(** A group of [$group] with the three sums of the location and category
    statistics. *)
Record groupStats (K : Type) := GroupStats {
  _id : K;
  count : nat;
  lostCount : nat;
  foundCount : nat
}.
Arguments GroupStats {K}.
Arguments _id {K}.
Arguments count {K}.
Arguments lostCount {K}.
Arguments foundCount {K}.

(** [$match: { isActive: true, status: 'active' }] *)
Definition onOffer (its : gmap N Item.t) : list Item.t :=
  filter (λ i, Item.isActive i = true ∧ Item.status i = active)
         (snd <$> map_to_list its).

(** [$group] by [key]: one group for each value of the key that occurs. *)
Definition group {K} `{EqDecision K} (key : Item.t → K) (docs : list Item.t)
  : list (groupStats K) :=
  (λ k, let members := filter (λ i, key i = k) docs in
        GroupStats k (sum_list_with (λ _, 1) members)
          (sumCond isLost members) (sumCond isFound members))
    <$> remove_dups (key <$> docs).

(** [$sort: { count: -1 }] *)
Definition moreFirst {K} : relation (groupStats K) :=
  λ a b, (count b ≤ count a)%nat.

#[global] Instance moreFirst_dec {K} : RelDecision (@moreFirst K).
Proof. intros a b. unfold moreFirst. apply _. Defined.

Definition byCount {K} (l : list (groupStats K)) : list (groupStats K) :=
  merge_sort moreFirst l.

(** [getItemsByLocation]: the ten locations with the most items on offer *)
Definition getItemsByLocation (its : gmap N Item.t) : list (groupStats string) :=
  take 10 (byCount (group Item.location (onOffer its))).

(** [getItemsByCategory] *)
Definition getItemsByCategory (its : gmap N Item.t) : list (groupStats itemCategory) :=
  byCount (group Item.category (onOffer its)).

(** [.limit(n)]: the server reads a limit of zero as no limit. *)
Definition limitTo {A} (n : nat) (l : list A) : list A :=
  match n with O => l | _ => take n l end.

(** [getRecentActivity(limit = 10)] *)
Definition getRecentActivity (limit : option nat) (its : gmap N Item.t)
  : list (N * Item.t) :=
  limitTo (default 10 limit)
    (newestFirst Item.createdAt
       (filter (λ x, Item.isActive x.2 = true) (map_to_list its))).

End Database.

(** ** Reading the history of a database *)

(** The user on whose behalf a request is served; [GET /items] and
    [GET /items/:id] are served to anyone. *)
Definition requester (r : Server.request) : option ObjectId :=
  match r with
  | Server.PostClaim user _ _ | Server.GetItemClaims user _
  | Server.GetMyClaims user | Server.GetPendingClaims user
  | Server.PutClaim user _ _ | Server.DeleteClaim user _
  | Server.GetMyItems user | Server.PostItem user _
  | Server.PutItem user _ _ | Server.DeleteItem user _
  | Server.PatchItemResolve user _ => Some user
  | Server.GetItems _ | Server.GetItem _ => None
  end.

(** What the unique index on [(item, claimedBy)] maintains. *)
Definition onePerPair (cs : gmap N Claim.t) : Prop :=
  ∀ i j c d, cs !! i = Some c → cs !! j = Some d →
    Claim.item c = Claim.item d → Claim.claimedBy c = Claim.claimedBy d → i = j.

(** Every claim is on a stored item that its claimant does not own. *)
Definition onOthersItems (s : db) : Prop :=
  ∀ j c, claims s !! j = Some c →
    ∃ item, items s !! Claim.item c = Some item
            ∧ Item.createdBy item ≠ Claim.claimedBy c.

(** The order of [sort({ createdAt: -1 })]. *)
Definition newerFirst {A} (createdAt : A → Z) : relation (N * A) :=
  λ x y, (createdAt x.2 >= createdAt y.2)%Z.

(** The claims and the items that an answer carries. *)
Definition claimsOf (a : response) : list (ObjectId * Claim.t) :=
  match json a with ClaimList l => l | _ => [] end.

(** What can become of a stored item from one state of the database to a
    later one. *)
Definition laterItem (i i' : Item.t) : Prop :=
  Item.type i' = Item.type i
  ∧ Item.date i' = Item.date i
  ∧ Item.createdBy i' = Item.createdBy i
  ∧ Item.createdAt i' = Item.createdAt i
  ∧ Item.tags i' = Item.tags i
  ∧ (Item.isActive i = false → Item.isActive i' = false)
  ∧ (Item.status i' = Item.status i ∨ Item.status i' = resolved)
  ∧ (Item.views i ≤ Item.views i')%N.

(** What can become of a stored claim that is still stored later. *)
Definition laterClaim (c c' : Claim.t) : Prop :=
  Claim.item c' = Claim.item c
  ∧ Claim.claimedBy c' = Claim.claimedBy c
  ∧ Claim.message c' = Claim.message c
  ∧ Claim.createdAt c' = Claim.createdAt c
  ∧ (c' = c ∨ Claim.status c = pending ∧ Claim.status c' ≠ pending).

(** Every stored document passes the validators of its schema, the date
    of an item being compared with [time]. *)
Definition validAt (time : Date) (s : db) : Prop :=
  map_Forall (λ _ i, Item.schemaValid time i = true) (items s)
  ∧ map_Forall (λ _ c, Claim.schemaValid c = true) (claims s).

(** A count that a double holds. *)
Definition isDouble (n : N) : Prop := roundDouble n = n.

(** ** More of the scenario *)

Module Episode.

Import Scenario.

(** Only Bob's claim on the wallet is stored. *)
Definition oneClaim : db := Db itemsOfAlice {[ 100%N := onWallet ]}.

(** Alice's requests under a clock that reads a time before the date of
    the wallet. *)
Definition clockBehind : env := Env 300 901 901 901.

(** Bob's claim on the wallet, as stored after Alice has approved it under
    [surroundings], and the wallet and the database after that. *)
Definition onWalletApproved : Claim.t :=
  Claim.mk 10 bob text approved None (Some 3001%Z) (Some alice) 2000.
Definition walletResolved : Item.t :=
  Item.mk "Black wallet" "Leather wallet with two cards" found Accessories
    "Main gate" 1000 None None alice resolved true 0 [] 1100.
Definition afterApproval : db :=
  Db (<[10%N := walletResolved]> itemsOfAlice)
     (<[100%N := onWalletApproved]> (claims claimed)).

(** Alice approves and rejects Bob's claim on the wallet in two calls that
    overlap: each takes a turn in its course, then lets the other take
    one. *)
Definition approving : Overlap.call :=
  Overlap.Call (Env 300 4000 4001 4002) alice (GoodId 100) approveIt.
Definition rejecting : Overlap.call :=
  Overlap.Call (Env 301 4100 4101 4102) alice (GoodId 100) rejectIt.
Definition interleaved : list nat := [0; 1; 0; 1; 0; 1; 0]%nat.

(** An item that has been viewed 2^53 times. *)
Definition wellWorn : Item.t :=
  Item.mk "Door key" "A single brass key on a string" found Keys "Porch" 100
    None None alice active true 9007199254740992 [] 150.
Definition popular : db := Db {[ 20%N := wellWorn ]} ∅.

(** The first page of everything on offer. *)
Definition onOfferPage : list (ObjectId * Item.t) :=
  [(11%N, umbrella); (10%N, wallet)].

Definition lostOnly : ItemRoutes.listQuery :=
  ItemRoutes.ListQuery (Some "lost") None None None None None None None.

End Episode.

(** * Properties *)

(** ** The queries *)

Lemma elem_of_newestFirst {A} (f : A → Z) (l : list (N * A)) x :
  x ∈ newestFirst f l ↔ x ∈ l.
Proof. unfold newestFirst. by rewrite merge_sort_Permutation. Qed.

Lemma findClaim_None itemId user (cs : gmap N Claim.t) :
  findClaim itemId user cs = None ↔
  ∀ id c, cs !! id = Some c → Claim.item c = itemId → Claim.claimedBy c ≠ user.
Proof.
  unfold findClaim. rewrite head_None. split.
  - intros Hnil id c Hc Hi Hu.
    eapply (filter_nil_not_elem_of _ _ (id, c)) in Hnil; [|done].
    apply Hnil. by apply elem_of_map_to_list.
  - intros Hall. destruct (filter _ _) as [|[id c] l] eqn:Hf; [done|].
    assert (Hin : (id, c) ∈ filter
      (λ p : N * Claim.t, Claim.item p.2 = itemId ∧ Claim.claimedBy p.2 = user)
      (map_to_list cs)) by (rewrite Hf; left).
    apply list_elem_of_filter in Hin as [[Hi Hu] Hin].
    apply elem_of_map_to_list in Hin. by destruct (Hall id c Hin Hi).
Qed.

Lemma findClaim_exists itemId user (cs : gmap N Claim.t) id c :
  cs !! id = Some c → Claim.item c = itemId → Claim.claimedBy c = user →
  is_Some (findClaim itemId user cs).
Proof.
  intros Hc Hi Hu. destruct (findClaim itemId user cs) eqn:Hf; [by eexists|].
  rewrite findClaim_None in Hf. by destruct (Hf id c Hc Hi).
Qed.

(** ** Deleting a claim *)

(** C8.  [DELETE /claims/:claimId] answers 404 when the claim is missing,
    403 when the requester is not the claimant, 400 when the claim is not
    pending, and in each of these cases leaves the database as it was; for
    a pending claim of the requester it answers 200 and removes that claim
    and nothing else.  The claim is gone afterwards only if it was missing
    before or the call went through. *)
Theorem remove_claim_cases user claimId s :
  (claims s !! claimId = None →
     ClaimRoutes.remove user (GoodId claimId) s = (Res 404 (Msg "Claim not found"), s))
  ∧ (∀ c, claims s !! claimId = Some c → Claim.claimedBy c ≠ user →
     ClaimRoutes.remove user (GoodId claimId) s
     = (Res 403 (Msg "Not authorized to delete this claim"), s))
  ∧ (∀ c, claims s !! claimId = Some c → Claim.claimedBy c = user →
     Claim.status c ≠ pending →
     ClaimRoutes.remove user (GoodId claimId) s
     = (Res 400 (Msg "Cannot delete processed claims"), s))
  ∧ (∀ c, claims s !! claimId = Some c → Claim.claimedBy c = user →
     Claim.status c = pending →
     let '(a, s') := ClaimRoutes.remove user (GoodId claimId) s in
     a = Res 200 (Msg "Claim deleted successfully")
     ∧ claims s' !! claimId = None
     ∧ (∀ j, j ≠ claimId → claims s' !! j = claims s !! j)
     ∧ items s' = items s)
  ∧ (claims (ClaimRoutes.remove user (GoodId claimId) s).2 !! claimId = None →
     claims s !! claimId = None
     ∨ code (ClaimRoutes.remove user (GoodId claimId) s).1 = 200).
Proof.
  unfold ClaimRoutes.remove. repeat split.
  - by intros ->.
  - intros c -> Hu. by rewrite bool_decide_eq_true_2.
  - intros c -> Hu Hs. rewrite bool_decide_eq_false_2 by naive_solver.
    by rewrite bool_decide_eq_true_2.
  - intros c -> Hu Hs. rewrite bool_decide_eq_false_2 by naive_solver.
    rewrite bool_decide_eq_false_2 by naive_solver. simpl.
    split_and!; [done|apply lookup_delete_eq| |done].
    intros j Hj. by apply lookup_delete_ne.
  - destruct (claims s !! claimId) as [c|] eqn:Hc; [|by left].
    repeat case_bool_decide; simpl; intros Hgone; try congruence; by right.
Qed.

(** ** Which documents a request can touch *)

Lemma insertClaim_Some id c (cs cs' : gmap N Claim.t) :
  insertClaim id c cs = Some cs' → cs !! id = None ∧ cs' = <[id := c]> cs.
Proof. unfold insertClaim. intros H. repeat case_match; by simplify_eq. Qed.

Lemma approve_status e u c : Claim.status (ClaimRoutes.approve e u c) = approved.
Proof. done. Qed.

Lemma reject_status e u n c : Claim.status (ClaimRoutes.reject e u n c) = rejected.
Proof. unfold ClaimRoutes.reject. by case_match. Qed.

Lemma preSave_status old t c : Claim.status (Claim.preSave old t c) = Claim.status c.
Proof. unfold Claim.preSave. by repeat case_match. Qed.

Section Runs.

Variable regexI : string → option (string → bool).
Variable textSearch : string → Item.t → bool.
Variable isDate : string → bool.
Variable parseDate : string → option Z.

Local Abbreviation handle := (Server.handle regexI textSearch isDate parseDate).
Local Abbreviation run := (Server.run regexI textSearch isDate parseDate).
Local Abbreviation resolutions := (Server.resolutions regexI textSearch isDate parseDate).

(** A claim that has left [pending] is out of reach of every route. *)
Lemma handle_keeps_processed e r s claimId c :
  claims s !! claimId = Some c → Claim.status c ≠ pending →
  claims (handle e r s).2 !! claimId = Some c
  ∧ Server.resolved claimId r (handle e r s).1 = false.
Proof.
  intros Hc Hst.
  destruct r as [u i m|u i|u|u|u target b|u target|q|u|i|u b|u i b|u i|u i]; simpl.
  - split; [|done]. unfold ClaimRoutes.submit.
    repeat case_match; simpl; try done.
    match goal with H : insertClaim _ _ _ = Some _ |- _ =>
      apply insertClaim_Some in H as [Hfresh ->] end.
    rewrite lookup_insert_ne; [done|congruence].
  - split; [|done]. unfold ClaimRoutes.itemClaims. by repeat case_match.
  - done.
  - done.
  - unfold ClaimRoutes.resolve, saveClaim, saveItem.
    destruct target as [raw|id]; [by repeat case_match|].
    destruct (decide (id = claimId)) as [->|Hne].
    + rewrite Hc. repeat case_match; simplify_eq/=; try done;
        repeat case_bool_decide; simplify_eq/=; try done;
        rewrite ?andb_false_r; try done; naive_solver.
    + rewrite (bool_decide_eq_false_2 (id = claimId)) by done. simpl.
      split; [|by repeat case_match].
      repeat case_match; simplify_eq/=; try done;
        by rewrite lookup_insert_ne.
  - split; [|done]. unfold ClaimRoutes.remove.
    destruct target as [raw|id]; [done|].
    repeat case_match; simplify_eq/=; try done.
    destruct (decide (id = claimId)) as [->|Hne].
    + repeat case_bool_decide; naive_solver.
    + by rewrite lookup_delete_ne.
  - split; [|done]. unfold ItemRoutes.listItems. by repeat case_match.
  - done.
  - split; [|done]. unfold ItemRoutes.view, ItemRoutes.incrementViews, saveItem.
    destruct i as [raw|id]; [done|]. by repeat case_match; simplify_eq/=.
  - split; [|done]. unfold ItemRoutes.create. by repeat case_match.
  - split; [|done]. unfold ItemRoutes.edit, saveItem.
    by repeat case_match; simplify_eq/=.
  - split; [|done]. unfold ItemRoutes.remove, saveItem.
    by repeat case_match; simplify_eq/=.
  - split; [|done]. unfold ItemRoutes.resolve, saveItem.
    by repeat case_match; simplify_eq/=.
Qed.

Lemma run_keeps_processed rs s claimId c :
  claims s !! claimId = Some c → Claim.status c ≠ pending →
  claims (run rs s).2 !! claimId = Some c ∧ resolutions claimId rs s = 0.
Proof.
  revert s. induction rs as [|[e r] rs IH]; intros s Hc Hst; [done|].
  simpl. destruct (handle_keeps_processed e r s claimId c Hc Hst) as [Hc' Hno].
  destruct (handle e r s) as [a s1]; simpl in *.
  destruct (IH s1 Hc' Hst) as [Hc'' Hz]. rewrite Hno, Hz.
  by destruct (run rs s1).
Qed.

(** A [PUT /:claimId] that goes through leaves the claim processed. *)
Lemma resolved_processed e r s claimId :
  Server.resolved claimId r (handle e r s).1 = true →
  ∃ c, claims (handle e r s).2 !! claimId = Some c ∧ Claim.status c ≠ pending.
Proof.
  destruct r as [| | | |u [raw|id] b| | | | | | | |]; simpl; try done.
  rewrite andb_true_iff, !bool_decide_eq_true. intros [-> Hok]. revert Hok.
  unfold ClaimRoutes.resolve, saveClaim, saveItem.
  repeat case_match; simplify_eq; try done; intros _; cbn [snd claims].
  - rewrite lookup_insert_eq. eexists; split; [done|].
    by rewrite preSave_status, approve_status.
  - rewrite lookup_insert_eq. eexists; split; [done|].
    by rewrite preSave_status, reject_status.
Qed.

Lemma resolutions_le_1 rs s claimId : (resolutions claimId rs s ≤ 1)%nat.
Proof.
  revert s. induction rs as [|[e r] rs IH]; intros s; simpl; [lia|].
  destruct (Server.resolved claimId r (handle e r s).1) eqn:Hr.
  - destruct (resolved_processed e r s claimId Hr) as (c & Hc & Hst).
    destruct (handle e r s) as [a s1]; simpl in *. rewrite Hr.
    destruct (run_keeps_processed rs s1 claimId c Hc Hst) as [_ ->]. lia.
  - destruct (handle e r s) as [a s1]; simpl in *. rewrite Hr.
    specialize (IH s1). lia.
Qed.

(** X23.  When requests are served one after the other: once a claim is
    approved or rejected, every [PUT /:claimId] on it by the owner of its
    item with a valid decision answers 400 "Claim has already been
    processed" and leaves the database as it was; the claim then stays
    exactly as it is through any further requests, none of which resolves
    it again; and in any such run from any state at most one
    [PUT /:claimId] on a given claim is answered 200. *)
Theorem resolve_at_most_once s claimId :
  (∀ c item e b d,
      claims s !! claimId = Some c → Claim.status c ≠ pending →
      items s !! Claim.item c = Some item →
      ClaimRoutes.validateResolve b = Some d →
      ClaimRoutes.resolve e (Item.createdBy item) (GoodId claimId) b s
      = (Res 400 (Msg "Claim has already been processed"), s))
  ∧ (∀ c rs,
      claims s !! claimId = Some c → Claim.status c ≠ pending →
      claims (run rs s).2 !! claimId = Some c ∧ resolutions claimId rs s = 0)
  ∧ (∀ rs, (resolutions claimId rs s ≤ 1)%nat).
Proof.
  split_and!.
  - intros c item e b [d notes] Hc Hst Hitem Hb. unfold ClaimRoutes.resolve.
    rewrite Hb, Hc, Hitem.
    rewrite bool_decide_eq_false_2 by naive_solver.
    by rewrite bool_decide_eq_true_2.
  - intros c rs. apply run_keeps_processed.
  - intros rs. apply resolutions_le_1.
Qed.

End Runs.

(** ** Resolving a pending claim *)

Lemma validateResolve_Some b d notes :
  ClaimRoutes.validateResolve b = Some (d, notes) →
  (d = approved ∧ ClaimRoutes.rb_status b = Some "approved"
   ∨ d = rejected ∧ ClaimRoutes.rb_status b = Some "rejected")
  ∧ notes = trim <$> ClaimRoutes.rb_adminNotes b
  ∧ (∀ n, notes = Some n → isLength 0 500 n = true).
Proof.
  unfold ClaimRoutes.validateResolve. intros H.
  destruct (ClaimRoutes.rb_status b) as [st|]; [|done].
  destruct (String.eqb st "approved") eqn:Ha.
  - apply String.eqb_eq in Ha as ->.
    destruct (ClaimRoutes.rb_adminNotes b) as [raw|]; simpl in *.
    + destruct (isLength 0 500 (trim raw)) eqn:Hlen; [|done]. simplify_eq.
      split_and!; [by left|done|]. by intros n [= <-].
    + simplify_eq. split_and!; [by left|done|done].
  - destruct (String.eqb st "rejected") eqn:Hr; [|done].
    apply String.eqb_eq in Hr as ->.
    destruct (ClaimRoutes.rb_adminNotes b) as [raw|]; simpl in *.
    + destruct (isLength 0 500 (trim raw)) eqn:Hlen; [|done]. simplify_eq.
      split_and!; [by right|done|]. by intros n [= <-].
    + simplify_eq. split_and!; [by right|done|done].
Qed.

(** What [PUT /:claimId] does to a pending claim when the requester owns
    the claim's item and the claim passes its validators: of the item only
    the owner is read, and the validators are run on it when it is
    saved. *)
Lemma resolve_pending e user claimId b s c item d notes :
  claims s !! claimId = Some c → Claim.status c = pending →
  items s !! Claim.item c = Some item → Item.createdBy item = user →
  ClaimRoutes.validateResolve b = Some (d, notes) →
  Claim.schemaValid c = true →
  ClaimRoutes.resolve e user (GoodId claimId) b s =
  let c' :=
    Claim.mk (Claim.item c) (Claim.claimedBy c) (Claim.message c) d
      (match d, notes with
       | rejected, Some n => if truthy n then Some n else Claim.adminNotes c
       | _, _ => Claim.adminNotes c
       end)
      (Some (saveTime e)) (Some user) (Claim.createdAt c) in
  let claims' := <[claimId := c']> (claims s) in
  if bool_decide (d = approved)
  then
    if Item.schemaValid (itemSaveTime e) item
    then
      (Res 200 (WithClaim "Claim approved successfully" claimId c'),
       Db (<[Claim.item c :=
               Item.mk (Item.title item) (Item.description item) (Item.type item)
                 (Item.category item) (Item.location item) (Item.date item)
                 (Item.image item) (Item.contactInfo item) (Item.createdBy item)
                 resolved (Item.isActive item) (Item.views item) (Item.tags item)
                 (Item.createdAt item)]> (items s)) claims')
    else (Res 500 (Msg "Server error updating claim"), Db (items s) claims')
  else
    (Res 200 (WithClaim "Claim rejected successfully" claimId c'),
     Db (items s) claims').
Proof.
  intros Hc Hst Hitem Hu Hb Hvalid. unfold ClaimRoutes.resolve.
  rewrite Hb, Hc, Hitem.
  rewrite bool_decide_eq_false_2 by naive_solver.
  rewrite bool_decide_eq_false_2 by naive_solver.
  destruct (validateResolve_Some _ _ _ Hb) as ([[-> _]|[-> _]] & _ & Hnotes).
  - rewrite bool_decide_eq_true_2 by done.
    unfold saveClaim, saveItem, Claim.preSave, Claim.schemaValid in *.
    rewrite Hst. simpl. rewrite Hvalid.
    change (Item.schemaValid (itemSaveTime e) (Item.set_status resolved item))
      with (Item.schemaValid (itemSaveTime e) item).
    by destruct (Item.schemaValid (itemSaveTime e) item).
  - rewrite bool_decide_eq_false_2 by done.
    unfold saveClaim, Claim.preSave, Claim.schemaValid in *.
    rewrite Hst, reject_status. simpl.
    apply andb_true_iff in Hvalid as [Hmessage Hold].
    unfold ClaimRoutes.reject. destruct notes as [n|]; simpl.
    + destruct (truthy n); simpl; rewrite Hmessage; simpl.
      * by rewrite (Hnotes n eq_refl).
      * by rewrite Hold.
    + by rewrite Hmessage, Hold.
Qed.

(** C3.  For a pending claim resolved by the owner of its item, the claim
    and, on an approval, the item passing the validators that [save()]
    runs on them: the answer is 200 and carries the stored claim, which is
    the claim with the decision as its status, the requester as its
    resolver and the time of the save as its resolution date; no other
    claim changes.  On [approved] the notes are left alone and the item is
    stored with status [resolved] and every other field as it was, no
    other item changing; on [rejected] the notes are stored when they are
    given and not empty, and no item changes. *)
Theorem resolve_pending_effects e user claimId b s c item d notes :
  claims s !! claimId = Some c → Claim.status c = pending →
  items s !! Claim.item c = Some item → Item.createdBy item = user →
  ClaimRoutes.validateResolve b = Some (d, notes) →
  Claim.schemaValid c = true →
  (d = approved → Item.schemaValid (itemSaveTime e) item = true) →
  let '(a, s') := ClaimRoutes.resolve e user (GoodId claimId) b s in
  let c' :=
    Claim.mk (Claim.item c) (Claim.claimedBy c) (Claim.message c) d
      (match d, notes with
       | rejected, Some n => if truthy n then Some n else Claim.adminNotes c
       | _, _ => Claim.adminNotes c
       end)
      (Some (saveTime e)) (Some user) (Claim.createdAt c) in
  code a = 200
  ∧ (∃ text, json a = WithClaim text claimId c')
  ∧ claims s' !! claimId = Some c'
  ∧ (∀ j, j ≠ claimId → claims s' !! j = claims s !! j)
  ∧ (d = approved →
     items s' !! Claim.item c
     = Some (Item.mk (Item.title item) (Item.description item) (Item.type item)
               (Item.category item) (Item.location item) (Item.date item)
               (Item.image item) (Item.contactInfo item) (Item.createdBy item)
               resolved (Item.isActive item) (Item.views item) (Item.tags item)
               (Item.createdAt item))
     ∧ ∀ j, j ≠ Claim.item c → items s' !! j = items s !! j)
  ∧ (d = rejected → items s' = items s).
Proof.
  intros Hc Hst Hitem Hu Hb Hvalid Hitemvalid.
  rewrite (resolve_pending e user claimId b s c item d notes) by done.
  destruct (validateResolve_Some _ _ _ Hb) as ([[-> _]|[-> _]] & _ & _).
  - rewrite bool_decide_eq_true_2, Hitemvalid by done. cbv zeta.
    split_and!; [done|by eexists|apply lookup_insert_eq
                |by intros j ?; apply lookup_insert_ne| |done].
    intros _. split; [apply lookup_insert_eq|].
    intros j ?. by apply lookup_insert_ne.
  - rewrite bool_decide_eq_false_2 by done. cbv zeta.
    split_and!; [done|by eexists|apply lookup_insert_eq
                |by intros j ?; apply lookup_insert_ne|done|done].
Qed.

(** C10.  [PUT /:claimId] does not look at the active flag or the status
    of the item: a pending claim is resolved by the owner of its item
    whatever they are, the claim and, on an approval, the item passing the
    validators that [save()] runs on them; approving it sets the item's
    status to [resolved] and leaves the active flag alone. *)
Theorem resolve_ignores_item_state e user claimId b s c item d notes :
  claims s !! claimId = Some c → Claim.status c = pending →
  items s !! Claim.item c = Some item → Item.createdBy item = user →
  ClaimRoutes.validateResolve b = Some (d, notes) →
  Claim.schemaValid c = true →
  (d = approved → Item.schemaValid (itemSaveTime e) item = true) →
  let '(a, s') := ClaimRoutes.resolve e user (GoodId claimId) b s in
  code a = 200
  ∧ (∃ c', claims s' !! claimId = Some c' ∧ Claim.status c' = d)
  ∧ (d = approved →
     ∃ item', items s' !! Claim.item c = Some item'
       ∧ Item.status item' = resolved
       ∧ Item.isActive item' = Item.isActive item).
Proof.
  intros Hc Hst Hitem Hu Hb Hvalid Hitemvalid.
  rewrite (resolve_pending e user claimId b s c item d notes) by done.
  destruct (validateResolve_Some _ _ _ Hb) as ([[-> _]|[-> _]] & _ & _).
  - rewrite bool_decide_eq_true_2, Hitemvalid by done. cbv zeta.
    split_and!; [done| |].
    + eexists. split; [apply lookup_insert_eq|done].
    + intros _. eexists. split; [apply lookup_insert_eq|done].
  - rewrite bool_decide_eq_false_2 by done. cbv zeta.
    split_and!; [done| |done].
    eexists. split; [apply lookup_insert_eq|done].
Qed.

(** ** Submitting a claim *)

(** C2, as the code has it.  When the claimant already has a claim on the
    item, whatever its status, [POST /:itemId] leaves the database as it
    was, and its answer is fixed: 400 "Validation failed" for a message
    that is not valid; else 404 when the item is missing, soft-deleted or
    not of status [active]; else 400 "You cannot claim your own item" when
    the claimant owns the item; else 400 "You have already submitted a
    claim for this item".  It is never 201 or 409. *)
Theorem submit_again_rejected e user itemId message s claimId c :
  claims s !! claimId = Some c →
  Claim.item c = itemId → Claim.claimedBy c = user →
  (ClaimRoutes.submit e user (GoodId itemId) message s).2 = s
  ∧ (ClaimRoutes.validateMessage message = None →
     (ClaimRoutes.submit e user (GoodId itemId) message s).1
     = Res 400 (Invalid "Validation failed"))
  ∧ (is_Some (ClaimRoutes.validateMessage message) →
     (items s !! itemId = None
      ∨ ∃ item, items s !! itemId = Some item
                ∧ (Item.isActive item = false ∨ Item.status item ≠ active)) →
     (ClaimRoutes.submit e user (GoodId itemId) message s).1
     = Res 404 (Msg "Item not found or no longer available"))
  ∧ (∀ item,
      is_Some (ClaimRoutes.validateMessage message) →
      items s !! itemId = Some item →
      Item.isActive item = true → Item.status item = active →
      (Item.createdBy item = user →
       (ClaimRoutes.submit e user (GoodId itemId) message s).1
       = Res 400 (Msg "You cannot claim your own item"))
      ∧ (Item.createdBy item ≠ user →
         (ClaimRoutes.submit e user (GoodId itemId) message s).1
         = Res 400 (Msg "You have already submitted a claim for this item")))
  ∧ code (ClaimRoutes.submit e user (GoodId itemId) message s).1 ≠ 201
  ∧ code (ClaimRoutes.submit e user (GoodId itemId) message s).1 ≠ 409.
Proof.
  intros Hc Hi Hu.
  destruct (findClaim_exists itemId user (claims s) claimId c Hc Hi Hu) as [p Hp].
  unfold ClaimRoutes.submit. split_and!.
  - repeat case_match; simplify_eq/=; done.
  - by intros ->.
  - intros [m ->] [->|(item & -> & [->| Hst])]; [done|done|].
    rewrite (bool_decide_eq_true_2 (Item.status item ≠ active)) by done.
    by rewrite orb_true_r.
  - intros item [m ->] -> Hact Hst. rewrite Hact, Hst, Hp.
    split; intros Hown; by repeat case_bool_decide.
  - repeat case_match; simplify_eq/=; done.
  - repeat case_match; simplify_eq/=; done.
Qed.

(** The conditions under which [POST /:itemId] creates a claim; the type
    of the item is not among them. *)
Lemma submit_creates e user itemId message s item m :
  ClaimRoutes.validateMessage message = Some m →
  items s !! itemId = Some item →
  Item.isActive item = true → Item.status item = active →
  Item.createdBy item ≠ user →
  findClaim itemId user (claims s) = None →
  claims s !! oid e = None →
  ClaimRoutes.submit e user (GoodId itemId) message s
  = let claim := Claim.mk itemId user m pending None None None (saveTime e) in
    (Res 201 (WithClaim "Claim submitted successfully" (oid e) claim),
     Db (items s) (<[oid e := claim]> (claims s))).
Proof.
  intros Hm Hitem Hact Hst Hown Hnone Hfresh. unfold ClaimRoutes.submit.
  rewrite Hm, Hitem, Hact, Hst, Hnone.
  rewrite (bool_decide_eq_false_2 (active ≠ active)) by naive_solver.
  rewrite (bool_decide_eq_false_2 (Item.createdBy item = user)) by done.
  unfold insertClaim, Claim.schemaValid. simpl.
  unfold ClaimRoutes.validateMessage in Hm.
  destruct message as [raw|]; [|done].
  destruct (isLength 20 1000 (trim raw)) eqn:Hlen; [|done].
  simplify_eq. by rewrite Hlen, Hfresh, Hnone.
Qed.

(** ** Pending claims on the requester's items *)

(** C7.  [GET /pending] always answers 200, changes nothing, and lists
    exactly the pending claims whose item exists and is owned by the
    requester, each with that item: a claim whose item does not resolve
    under the ownership match is left out, not reported as an error. *)
Theorem pending_claims_owned user s :
  ∃ l, ClaimRoutes.pendingClaims user s = (Res 200 (PopulatedClaims l), s)
    ∧ ∀ claimId c item,
        (claimId, c, item) ∈ l ↔
        claims s !! claimId = Some c ∧ Claim.status c = pending
        ∧ items s !! Claim.item c = Some item ∧ Item.createdBy item = user.
Proof.
  eexists. split; [done|]. intros claimId c item.
  unfold ClaimRoutes.validClaims, ClaimRoutes.getPendingClaimsForUser.
  rewrite list_elem_of_omap. split.
  - intros ([[id c0] o] & Hin & Hsome).
    apply list_elem_of_fmap in Hin as ([id1 c1] & Heq & Hin).
    rewrite elem_of_newestFirst in Hin.
    apply list_elem_of_filter in Hin as [Hst Hin].
    apply elem_of_map_to_list in Hin. simpl in *. simplify_eq.
    unfold ClaimRoutes.populateItemOwnedBy in Hsome.
    destruct (items s !! Claim.item c1) as [i|] eqn:Hi; [|done].
    case_bool_decide; simplify_eq/=. done.
  - intros (Hc & Hst & Hitem & Hown).
    exists (claimId, c, Some item). split; [|done].
    apply list_elem_of_fmap. exists (claimId, c). split.
    + simpl. unfold ClaimRoutes.populateItemOwnedBy.
      by rewrite Hitem, bool_decide_eq_true_2.
    + rewrite elem_of_newestFirst. apply list_elem_of_filter.
      split; [done|]. by apply elem_of_map_to_list.
Qed.

(** ** Listing, viewing and editing items *)

Lemma skipDocs_drop {A} n (l : list A) :
  ItemRoutes.skipDocs n l = drop (N.to_nat n) l.
Proof.
  unfold ItemRoutes.skipDocs. destruct (_ <=? _)%N eqn:Hn; [|done].
  apply N.leb_le in Hn. symmetry. apply drop_ge. lia.
Qed.

Section Listing.

Variable regexI : string → option (string → bool).
Variable textSearch : string → Item.t → bool.
Variable parseDate : string → option Z.

Lemma compile_buildQuery f p i :
  ItemRoutes.compile regexI textSearch parseDate (ItemRoutes.buildQuery f) = Some p →
  p i = true → Item.isActive i = true ∧ Item.status i = active.
Proof.
  unfold ItemRoutes.compile. intros Hp Hi.
  destruct (ItemRoutes.compileLocation _ _) as [re|]; [|done].
  destruct (ItemRoutes.castRange _ _) as [range|]; [|done].
  simpl in Hp. injection Hp as <-. unfold ItemRoutes.satisfies in Hi.
  rewrite !andb_true_iff, !bool_decide_eq_true in Hi. simpl in Hi.
  by destruct Hi as [[[[[[[Hact Hst] _] _] _] _] _] _].
Qed.

Lemma getFilteredItems_active f its l id i :
  ItemRoutes.getFilteredItems regexI textSearch parseDate f its = Some l →
  (id, i) ∈ l →
  its !! id = Some i ∧ Item.isActive i = true ∧ Item.status i = active.
Proof.
  unfold ItemRoutes.getFilteredItems, ItemRoutes.find. intros Hl Hin.
  destruct (ItemRoutes.compile _ _ _ _) as [p|] eqn:Hp; [|done].
  simpl in Hl. simplify_eq. rewrite elem_of_newestFirst in Hin.
  apply list_elem_of_filter in Hin as [Hpi Hin].
  apply elem_of_map_to_list in Hin. split; [done|].
  by eapply compile_buildQuery.
Qed.

(** C5.  Every item that [GET /items] returns is a stored item whose
    active flag is set and whose status is [active], whatever the query;
    the request changes nothing. *)
Theorem listed_items_active q s id i :
  (id, i) ∈ listed (ItemRoutes.listItems regexI textSearch parseDate q s).1 →
  items s !! id = Some i ∧ Item.isActive i = true ∧ Item.status i = active
  ∧ (ItemRoutes.listItems regexI textSearch parseDate q s).2 = s.
Proof.
  unfold ItemRoutes.listItems.
  destruct (negb _); [by intros ?%elem_of_nil|]. cbv zeta.
  destruct (_ <=? _)%N; [by intros ?%elem_of_nil|].
  destruct (ItemRoutes.getFilteredItems _ _ _ _ _) as [l|] eqn:Hl;
    [|by intros ?%elem_of_nil].
  simpl. rewrite skipDocs_drop. intros Hin.
  apply subseteq_take, subseteq_drop in Hin.
  destruct (getFilteredItems_active _ _ _ _ _ Hl Hin) as (? & ? & ?). done.
Qed.

End Listing.

Lemma roundDouble_small n : (n < 2 ^ 53)%N → roundDouble n = n.
Proof.
  intros Hn. unfold roundDouble.
  assert (Hsize : (N.size n <= 53)%N).
  { destruct (decide (n = 0%N)) as [->|Hne]; [done|].
    rewrite N.size_log2 by done.
    apply N.le_succ_l, N.log2_lt_pow2; lia. }
  apply N.leb_le in Hsize. by rewrite Hsize.
Qed.

Lemma plusOne_small n : (n < 2 ^ 53)%N → plusOne n = (n + 1)%N.
Proof. intros Hn%N.ltb_lt. unfold plusOne. by rewrite Hn. Qed.

Lemma plusOne_ge n : (n ≤ plusOne n)%N.
Proof. unfold plusOne. repeat case_match; lia. Qed.

(** C6, as the code has it.  [GET /items/:id] looks at the active flag
    only, never at the status: an item whose flag is set and which passes
    the validators that [save()] runs on it is returned with 200 whatever
    its status, [archived] included, and is stored with its view count
    raised, as a double, by one (exactly one below 2^53) and every other
    field as it was; the answer is 404 exactly when the item is missing or
    its flag is not set. *)
Theorem view_checks_active_flag_only e id s :
  (∀ item, items s !! id = Some item → Item.isActive item = true →
     Item.schemaValid (saveTime e) item = true →
     let item' :=
       Item.mk (Item.title item) (Item.description item) (Item.type item)
         (Item.category item) (Item.location item) (Item.date item)
         (Item.image item) (Item.contactInfo item) (Item.createdBy item)
         (Item.status item) (Item.isActive item) (plusOne (Item.views item))
         (Item.tags item) (Item.createdAt item) in
     ItemRoutes.view e (GoodId id) s
     = (Res 200 (OneItem id item'), Db (<[id := item']> (items s)) (claims s))
     ∧ ((Item.views item < 2 ^ 53)%N →
        Item.views item' = (Item.views item + 1)%N))
  ∧ (code (ItemRoutes.view e (GoodId id) s).1 = 404 ↔
     items s !! id = None
     ∨ ∃ item, items s !! id = Some item ∧ Item.isActive item = false).
Proof.
  unfold ItemRoutes.view, ItemRoutes.incrementViews, saveItem. split.
  - intros item -> Hact Hvalid. cbv zeta. split; [|apply plusOne_small].
    destruct (negb (Item.isActive item)) eqn:Hflag; [by rewrite Hact in Hflag|].
    change (Item.schemaValid (saveTime e)
              (Item.set_views (plusOne (Item.views item)) item))
      with (Item.schemaValid (saveTime e) item).
    by rewrite Hvalid.
  - destruct (items s !! id) as [item|]; [|by split; [left|]].
    destruct (Item.isActive item) eqn:Hact; simpl.
    + split.
      * by destruct (Item.schemaValid _ _).
      * intros [?|(i & ? & ?)]; simplify_eq. congruence.
    + split; [|done]. intros _. right. by exists item.
Qed.

(** C9.  [PUT /items/:id] changes no claim and creates or removes no item;
    of every stored item it leaves the type, date, owner, status, active
    flag, view count, tags and creation date as they were, and it leaves
    every item other than the one named entirely as it was. *)
Theorem edit_frame e user id b s j item :
  items s !! j = Some item →
  claims (ItemRoutes.edit e user id b s).2 = claims s
  ∧ dom (items (ItemRoutes.edit e user id b s).2) = dom (items s)
  ∧ ∃ item', items (ItemRoutes.edit e user id b s).2 !! j = Some item'
      ∧ Item.type item' = Item.type item
      ∧ Item.date item' = Item.date item
      ∧ Item.createdBy item' = Item.createdBy item
      ∧ Item.status item' = Item.status item
      ∧ Item.isActive item' = Item.isActive item
      ∧ Item.views item' = Item.views item
      ∧ Item.tags item' = Item.tags item
      ∧ Item.createdAt item' = Item.createdAt item
      ∧ (id ≠ GoodId j → item' = item).
Proof.
  intros Hj. unfold ItemRoutes.edit, saveItem.
  destruct (_ ≫= _) as [[[[[title description] category] location] contactInfo]|];
    [|by eauto 15].
  destruct id as [raw|id]; [by eauto 15|].
  destruct (items s !! id) as [it|] eqn:Hit; [|by eauto 15].
  destruct (negb _); [by eauto 15|].
  case_bool_decide; [by eauto 15|].
  destruct (Item.schemaValid _ _); [|by eauto 15].
  simpl. split; [done|]. split.
  { rewrite dom_insert_L. apply subseteq_union_1_L, singleton_subseteq_l.
    by eapply elem_of_dom_2. }
  destruct (decide (id = j)) as [->|Hne].
  - rewrite lookup_insert_eq. simplify_eq. eexists. split; [done|].
    split_and!; try congruence;
      unfold ItemRoutes.assign; by repeat case_match.
  - rewrite lookup_insert_ne by done. eauto 15.
Qed.

(** ** The scenario, run *)

Import Scenario.

Example story_answers :
  code <$> (Server.run anyRegex anyText noDate noParse story fresh).1
  = [201; 400; 200; 400].
Proof. reflexivity. Qed.

Example story_outcome :
  let s := (Server.run anyRegex anyText noDate noParse story fresh).2 in
  Claim.status <$> claims s !! 200%N = Some approved
  ∧ Item.status <$> items s !! 10%N = Some resolved
  ∧ Server.resolutions anyRegex anyText noDate noParse 200 story fresh = 1.
Proof. split_and!; reflexivity. Qed.

(** C1 at a failing input: Bob's claim on the wallet is pending, and Alice
    sends an approval and a rejection of it that overlap, each call
    loading the claim before the other has saved it.  Both calls pass the
    test for [pending] on what they loaded, both save and both are
    answered 200: the claim is resolved twice; it is stored as [approved]
    by the first save and then as [rejected] by the second, and it ends
    [rejected] under a [resolved] item.  Served one after the other, the
    same two calls are answered 200 and 400. *)
Theorem resolve_twice_when_overlapping :
  claims claimed !! 100%N = Some onWallet
  ∧ Claim.status onWallet = pending
  ∧ claims (Overlap.serve [Episode.approving; Episode.rejecting]
              (take 5 Episode.interleaved)
              [Overlap.Arrived; Overlap.Arrived] claimed).2 !! 100%N
    = Some (Claim.mk 10 bob text approved None (Some 4001%Z) (Some alice) 2000)
  ∧ Overlap.serve [Episode.approving; Episode.rejecting] Episode.interleaved
      [Overlap.Arrived; Overlap.Arrived] claimed
    = ([ Overlap.Answered
           (Res 200 (WithClaim "Claim approved successfully" 100
                       (Claim.mk 10 bob text approved None (Some 4001%Z)
                          (Some alice) 2000)));
         Overlap.Answered
           (Res 200 (WithClaim "Claim rejected successfully" 100
                       (Claim.mk 10 bob text rejected (Some "not yours")
                          (Some 4101%Z) (Some alice) 2000))) ],
       Db (<[10%N := Item.mk "Black wallet" "Leather wallet with two cards"
                       found Accessories "Main gate" 1000 None None alice
                       resolved true 0 [] 1100]> itemsOfAlice)
          (<[100%N := Claim.mk 10 bob text rejected (Some "not yours")
                        (Some 4101%Z) (Some alice) 2000]> (claims claimed)))
  ∧ code <$> (Server.run anyRegex anyText noDate noParse
                [ (Overlap.surroundings Episode.approving,
                   Server.PutClaim alice (GoodId 100) approveIt);
                  (Overlap.surroundings Episode.rejecting,
                   Server.PutClaim alice (GoodId 100) rejectIt) ] claimed).1
    = [200; 400].
Proof. split_and!; reflexivity. Qed.

Lemma remove_claim_cases_witness :
  claims claimed !! 102%N = Some onKeys
  ∧ ClaimRoutes.remove bob (GoodId 102) claimed
    = (Res 400 (Msg "Cannot delete processed claims"), claimed).
Proof.
  split; [reflexivity|].
  apply (proj1 (proj2 (proj2 (remove_claim_cases bob 102 claimed))) onKeys);
    [reflexivity|reflexivity|discriminate].
Defined.

Lemma resolve_at_most_once_witness :
  claims claimed !! 102%N = Some onKeys
  ∧ ClaimRoutes.resolve surroundings alice (GoodId 102) rejectIt claimed
    = (Res 400 (Msg "Claim has already been processed"), claimed).
Proof.
  split; [reflexivity|].
  apply (proj1 (resolve_at_most_once anyRegex anyText noDate noParse claimed 102)
           onKeys keys surroundings rejectIt (rejected, Some "not yours"));
    [reflexivity|discriminate|reflexivity|reflexivity].
Defined.

Lemma resolve_pending_effects_witness :
  claims claimed !! 100%N = Some onWallet
  ∧ Item.schemaValid (itemSaveTime surroundings) wallet = true
  ∧ let '(a, s') :=
      ClaimRoutes.resolve surroundings alice (GoodId 100) approveIt claimed in
    code a = 200
    ∧ claims s' !! 100%N
      = Some (Claim.mk 10 bob text approved None (Some 3001%Z) (Some alice) 2000)
    ∧ (approved = approved →
       items s' !! 10%N
       = Some (Item.mk "Black wallet" "Leather wallet with two cards" found
                 Accessories "Main gate" 1000 None None alice resolved true 0
                 [] 1100)
       ∧ ∀ j, j ≠ 10%N → items s' !! j = items claimed !! j).
Proof.
  split; [reflexivity|]. split; [reflexivity|].
  pose proof (resolve_pending_effects surroundings alice 100 approveIt claimed
                onWallet wallet approved None
                eq_refl eq_refl eq_refl eq_refl eq_refl eq_refl
                (λ _, eq_refl)) as H.
  destruct (ClaimRoutes.resolve surroundings alice (GoodId 100) approveIt claimed)
    as [a s'].
  exact (conj (proj1 H)
           (conj (proj1 (proj2 (proj2 H)))
              (proj1 (proj2 (proj2 (proj2 (proj2 H))))))).
Defined.

Lemma resolve_ignores_item_state_witness :
  Item.isActive scarf = false ∧ Item.status scarf = resolved
  ∧ Item.schemaValid (itemSaveTime surroundings) scarf = true
  ∧ let '(a, s') :=
      ClaimRoutes.resolve surroundings alice (GoodId 101) approveIt claimed in
    code a = 200.
Proof.
  split; [reflexivity|]. split; [reflexivity|]. split; [reflexivity|].
  pose proof (resolve_ignores_item_state surroundings alice 101 approveIt claimed
                onScarf scarf approved None
                eq_refl eq_refl eq_refl eq_refl eq_refl eq_refl
                (λ _, eq_refl)) as H.
  destruct (ClaimRoutes.resolve surroundings alice (GoodId 101) approveIt claimed)
    as [a s'].
  exact (proj1 H).
Defined.

(** C2 as stated fails: a second claim by the same claimant on the same
    item is answered with 400, not with 409. *)
Lemma submit_again_not_409 :
  ¬ (∀ e user itemId message s claimId c,
       claims s !! claimId = Some c →
       Claim.item c = itemId → Claim.claimedBy c = user →
       code (ClaimRoutes.submit e user (GoodId itemId) message s).1 = 409).
Proof.
  intros H.
  specialize (H surroundings bob 10%N (Some text) claimed 100%N onWallet
                eq_refl eq_refl eq_refl).
  vm_compute in H. discriminate H.
Qed.

Lemma submit_again_rejected_witness :
  (claims claimed !! 100%N = Some onWallet
   ∧ (ClaimRoutes.submit surroundings bob (GoodId 10) (Some text) claimed).1
     = Res 400 (Msg "You have already submitted a claim for this item"))
  ∧ (claims Episode.afterApproval !! 100%N = Some Episode.onWalletApproved
     ∧ (ClaimRoutes.submit surroundings bob (GoodId 10) (Some text)
          Episode.afterApproval).1
       = Res 404 (Msg "Item not found or no longer available")).
Proof.
  split; (split; [reflexivity|]).
  - apply (proj2 (proj1 (proj2 (proj2 (proj2
             (submit_again_rejected surroundings bob 10 (Some text)
                claimed 100 onWallet eq_refl eq_refl eq_refl)))) wallet
             (ex_intro _ text eq_refl) eq_refl eq_refl eq_refl)).
    discriminate.
  - apply (proj1 (proj2 (proj2
             (submit_again_rejected surroundings bob 10 (Some text)
                Episode.afterApproval 100 Episode.onWalletApproved
                eq_refl eq_refl eq_refl)))).
    + exists text. reflexivity.
    + right. exists Episode.walletResolved.
      split; [reflexivity|]. right. discriminate.
Defined.

(** C4 at a failing input: the umbrella is a lost item, so the detail page
    offers no claim button for it, yet [POST /:itemId] by Bob creates a
    claim on it. *)
Theorem submit_accepts_lost_item :
  Item.type umbrella = lost
  ∧ canBeClaimed (Some bob) umbrella = false
  ∧ ClaimRoutes.submit surroundings bob (GoodId 11) (Some text) fresh
    = let claim := Claim.mk 11 bob text pending None None None 3001 in
      (Res 201 (WithClaim "Claim submitted successfully" 200 claim),
       Db itemsOfAlice {[ 200%N := claim ]}).
Proof. split_and!; reflexivity. Qed.

Lemma listed_items_active_witness :
  (10%N, wallet) ∈ listed (ItemRoutes.listItems anyRegex anyText noParse everything claimed).1
  ∧ Item.isActive wallet = true ∧ Item.status wallet = active.
Proof.
  assert (Hin : (10%N, wallet)
            ∈ listed (ItemRoutes.listItems anyRegex anyText noParse everything claimed).1).
  { vm_compute. right. left. }
  split; [exact Hin|].
  pose proof (listed_items_active anyRegex anyText noParse everything claimed
                10%N wallet Hin) as H.
  exact (conj (proj1 (proj2 H)) (proj1 (proj2 (proj2 H)))).
Defined.

(** C6 as stated fails: the keys are archived, their active flag is set,
    and [GET /items/:id] returns them. *)
Lemma view_returns_archived_item :
  ¬ (∀ e id s item,
       items s !! id = Some item →
       Item.isActive item = true → Item.status item = archived →
       ∀ shown, json (ItemRoutes.view e (GoodId id) s).1 ≠ OneItem id shown).
Proof.
  intros H.
  apply (H surroundings 12%N claimed keys eq_refl eq_refl eq_refl
           (Item.set_views 5 keys)).
  reflexivity.
Qed.

Lemma view_checks_active_flag_only_witness :
  Item.status keys = archived
  ∧ Item.schemaValid (saveTime surroundings) keys = true
  ∧ ItemRoutes.view surroundings (GoodId 12) claimed
    = (Res 200
         (OneItem 12
            (Item.mk "Bunch of keys" "Three keys on a blue ring" found Keys
               "Car park" 500 None None alice archived true 5 [] 600)),
       Db (<[12%N := Item.mk "Bunch of keys" "Three keys on a blue ring" found
                       Keys "Car park" 500 None None alice archived true 5 []
                       600]> (items claimed)) (claims claimed)).
Proof.
  split; [reflexivity|]. split; [reflexivity|].
  exact (proj1 (proj1 (view_checks_active_flag_only surroundings 12 claimed)
                  keys eq_refl eq_refl eq_refl)).
Defined.

Lemma edit_frame_witness :
  items claimed !! 10%N = Some wallet
  ∧ claims (ItemRoutes.edit surroundings alice (GoodId 10) retitle claimed).2
    = claims claimed.
Proof.
  split; [reflexivity|].
  exact (proj1 (edit_frame surroundings alice (GoodId 10) retitle claimed 10%N
                  wallet eq_refl)).
Defined.

(** * Further properties *)

(** ** One request *)

Ltac later_item :=
  unfold laterItem; split_and!;
  first [done | by left | by right | simpl; lia | simpl; apply plusOne_ge].

Lemma laterItem_refl i : laterItem i i.
Proof. later_item. Qed.

Lemma laterItem_trans i1 i2 i3 : laterItem i1 i2 → laterItem i2 i3 → laterItem i1 i3.
Proof.
  unfold laterItem.
  intros (?&?&?&?&?&Ha&Hs&?) (?&?&?&?&?&Ha'&Hs'&?).
  split_and!; try congruence; [by auto| |lia].
  destruct Hs' as [->| ->]; [done|by right].
Qed.

Lemma laterClaim_refl c : laterClaim c c.
Proof. unfold laterClaim. split_and!; try done. by left. Qed.

Lemma laterClaim_trans c1 c2 c3 :
  laterClaim c1 c2 → laterClaim c2 c3 → laterClaim c1 c3.
Proof.
  unfold laterClaim.
  intros (?&?&?&?&H12) (?&?&?&?&H23).
  split_and!; try congruence.
  destruct H12 as [->|[? ?]]; [done|].
  destruct H23 as [->|[? ?]]; [by right|done].
Qed.

Lemma assign_fields title description category location contactInfo file item :
  laterItem item
    (ItemRoutes.assign file (λ v, Item.set_image (Some (trim v)))
      (ItemRoutes.assign contactInfo (λ v, Item.set_contactInfo (Some v))
        (ItemRoutes.assign location Item.set_location
          (ItemRoutes.assign category Item.set_category
            (ItemRoutes.assign description Item.set_description
              (ItemRoutes.assign title Item.set_title item)))))).
Proof.
  destruct title, description, category, location, contactInfo, file;
    later_item.
Qed.

Lemma preSave_later old saveTime c c' :
  Claim.item c' = Claim.item c → Claim.claimedBy c' = Claim.claimedBy c →
  Claim.message c' = Claim.message c → Claim.createdAt c' = Claim.createdAt c →
  Claim.status c = pending → Claim.status c' ≠ pending →
  laterClaim c (Claim.preSave old saveTime c').
Proof.
  intros. unfold laterClaim.
  assert (Claim.status (Claim.preSave old saveTime c') ≠ pending)
    by by rewrite preSave_status.
  unfold Claim.preSave in *. repeat case_match; split_and!; auto.
Qed.

Lemma preSave_resolvedBy old saveTime c :
  Claim.resolvedBy (Claim.preSave old saveTime c) = Claim.resolvedBy c.
Proof. unfold Claim.preSave. by repeat case_match. Qed.

Lemma approve_saved e user saveTime c :
  Claim.status c = pending →
  let c' := Claim.preSave (Some (Claim.status c)) saveTime (ClaimRoutes.approve e user c) in
  Claim.status c' ≠ pending ∧ laterClaim c c' ∧ Claim.resolvedBy c' = Some user.
Proof.
  intros Hst. cbv zeta. rewrite preSave_status, preSave_resolvedBy. split; [done|].
  split; [|done]. by apply preSave_later.
Qed.

Lemma reject_saved e user notes saveTime c :
  Claim.status c = pending →
  let c' := Claim.preSave (Some (Claim.status c)) saveTime
              (ClaimRoutes.reject e user notes c) in
  Claim.status c' ≠ pending ∧ laterClaim c c' ∧ Claim.resolvedBy c' = Some user.
Proof.
  intros Hst. cbv zeta. rewrite preSave_status, preSave_resolvedBy, reject_status.
  split; [done|]. split.
  - apply preSave_later; try done; try (by rewrite reject_status);
      unfold ClaimRoutes.reject; by case_match.
  - unfold ClaimRoutes.reject. by case_match.
Qed.

(** The requester passed the ownership test of a route. *)
Ltac by_owner :=
  left; f_equal;
  match goal with
  | H : bool_decide (_ ≠ _) = false |- _ =>
      apply bool_decide_eq_false in H; apply dec_stable in H; by rewrite H
  end.

Ltac changed_item :=
  right; left; eexists _, _, _;
  split; [eassumption|]; split; [|split; [reflexivity|]].

Section Steps.

Variable regexI : string → option (string → bool).
Variable textSearch : string → Item.t → bool.
Variable isDate : string → bool.
Variable parseDate : string → option Z.

Local Abbreviation handle := (Server.handle regexI textSearch isDate parseDate).
Local Abbreviation run := (Server.run regexI textSearch isDate parseDate).

(** What one request can do to the items: nothing, a change of one stored
    item that is made for its owner (or is the view count of a
    [GET /items/:id]), or a new item under a fresh [_id]. *)
Lemma handle_items e r s :
  items (handle e r s).2 = items s
  ∨ (∃ id item item',
        items s !! id = Some item ∧ laterItem item item'
        ∧ items (handle e r s).2 = <[id := item']> (items s)
        ∧ (requester r = Some (Item.createdBy item)
           ∨ r = Server.GetItem (GoodId id)
             ∧ item' = Item.set_views (plusOne (Item.views item)) item))
  ∨ (∃ item user b,
        r = Server.PostItem user b ∧ items s !! oid e = None
        ∧ items (handle e r s).2 = <[oid e := item]> (items s)
        ∧ Item.createdBy item = user ∧ Item.status item = active
        ∧ Item.isActive item = true ∧ Item.views item = 0%N).
Proof.
  destruct r as [u i m|u i|u|u|u target b|u target|q|u|i|u b|u i b|u i|u i]; simpl.
  - left. unfold ClaimRoutes.submit. by repeat case_match.
  - left. unfold ClaimRoutes.itemClaims. by repeat case_match.
  - by left.
  - by left.
  - unfold ClaimRoutes.resolve, saveClaim, saveItem.
    repeat case_match; simplify_eq/=; try by left.
    changed_item; [|by_owner].
    later_item.
  - left. unfold ClaimRoutes.remove. by repeat case_match.
  - left. unfold ItemRoutes.listItems. by repeat case_match.
  - by left.
  - unfold ItemRoutes.view, ItemRoutes.incrementViews, saveItem.
    repeat case_match; simplify_eq/=; try by left.
    changed_item; [|by right].
    later_item.
  - unfold ItemRoutes.create, saveItem. cbv zeta.
    destruct (_ ≫= _) as [[[[[[title description] type] category] location] date]|];
      [|by left].
    repeat case_match; simplify_eq/=; try by left.
    right; right. eexists _, _, _. by split_and!.
  - unfold ItemRoutes.edit, saveItem. cbv zeta.
    destruct (_ ≫= _) as [[[[[title description] category] location] contactInfo]|];
      [|by left].
    repeat case_match; simplify_eq/=; try by left.
    changed_item; [apply assign_fields|by_owner].
  - unfold ItemRoutes.remove, saveItem.
    repeat case_match; simplify_eq/=; try by left.
    changed_item; [|by_owner].
    later_item.
  - unfold ItemRoutes.resolve, saveItem.
    repeat case_match; simplify_eq/=; try by left.
    changed_item; [|by_owner].
    later_item.
Qed.

(** What one request can do to the claims: nothing, a new pending claim
    by a user on an item on offer that is not theirs and that they have
    not claimed, the resolution of a pending claim for the owner of its
    item, or the deletion of a pending claim for its claimant. *)
Lemma handle_claims e r s :
  claims (handle e r s).2 = claims s
  ∨ (∃ user itemId message item m,
        r = Server.PostClaim user (GoodId itemId) message
        ∧ ClaimRoutes.validateMessage message = Some m
        ∧ items s !! itemId = Some item
        ∧ Item.isActive item = true ∧ Item.status item = active
        ∧ Item.createdBy item ≠ user
        ∧ findClaim itemId user (claims s) = None
        ∧ claims s !! oid e = None
        ∧ claims (handle e r s).2
          = <[oid e := Claim.mk itemId user m pending None None None (saveTime e)]>
              (claims s))
  ∨ (∃ id c c' b item,
        r = Server.PutClaim (Item.createdBy item) (GoodId id) b
        ∧ claims s !! id = Some c ∧ items s !! Claim.item c = Some item
        ∧ Claim.status c = pending ∧ Claim.status c' ≠ pending
        ∧ laterClaim c c'
        ∧ Claim.resolvedBy c' = Some (Item.createdBy item)
        ∧ claims (handle e r s).2 = <[id := c']> (claims s))
  ∨ (∃ id c,
        r = Server.DeleteClaim (Claim.claimedBy c) (GoodId id)
        ∧ claims s !! id = Some c ∧ Claim.status c = pending
        ∧ claims (handle e r s).2 = delete id (claims s)).
Proof.
  destruct r as [u i m|u i|u|u|u target b|u target|q|u|i|u b|u i b|u i|u i]; simpl.
  - unfold ClaimRoutes.submit.
    repeat case_match; simplify_eq/=; try by left.
    match goal with H : insertClaim _ _ _ = Some _ |- _ =>
      apply insertClaim_Some in H as [Hfresh ->] end.
    match goal with H : _ || _ = false |- _ =>
      apply orb_false_iff in H as [Hact%negb_false_iff Hst%bool_decide_eq_false] end.
    apply dec_stable in Hst.
    match goal with H : bool_decide (_ = _) = false |- _ =>
      apply bool_decide_eq_false in H end.
    right; left. eexists _, _, _, _, _. by split_and!.
  - left. unfold ClaimRoutes.itemClaims. by repeat case_match.
  - by left.
  - by left.
  - unfold ClaimRoutes.resolve, saveClaim, saveItem.
    repeat case_match; simplify_eq/=; try by left.
    all: repeat match goal with
         | H : bool_decide (_ ≠ _) = false |- _ =>
             apply bool_decide_eq_false in H; apply dec_stable in H
         end; subst.
    all: right; right; left; eexists _, _, _, _, _;
      split; [reflexivity|]; split; [eassumption|]; split; [eassumption|];
      split; [assumption|].
    all: match goal with
         | |- context [ClaimRoutes.approve ?e ?u ?c] =>
             destruct (approve_saved e u (saveTime e) c) as (?&?&?); [done|]
         | |- context [ClaimRoutes.reject ?e ?u ?o ?c] =>
             destruct (reject_saved e u o (saveTime e) c) as (?&?&?); [done|]
         end; by split_and!.
  - unfold ClaimRoutes.remove.
    repeat case_match; simplify_eq/=; try by left.
    repeat match goal with
         | H : bool_decide (_ ≠ _) = false |- _ =>
             apply bool_decide_eq_false in H; apply dec_stable in H
         end; subst.
    right; right; right. eexists _, _. by split_and!.
  - left. unfold ItemRoutes.listItems. by repeat case_match.
  - by left.
  - left. unfold ItemRoutes.view, ItemRoutes.incrementViews, saveItem.
    destruct i as [raw|id]; [done|]. by repeat case_match; simplify_eq/=.
  - left. unfold ItemRoutes.create. by repeat case_match.
  - left. unfold ItemRoutes.edit, saveItem. by repeat case_match; simplify_eq/=.
  - left. unfold ItemRoutes.remove, saveItem. by repeat case_match; simplify_eq/=.
  - left. unfold ItemRoutes.resolve, saveItem. by repeat case_match; simplify_eq/=.
Qed.

End Steps.

(** ** Runs of requests

    A run is a list of requests that are served one after the other
    ([Server.run]): each is answered before the next one arrives. *)

Section Histories.

Variable regexI : string → option (string → bool).
Variable textSearch : string → Item.t → bool.
Variable isDate : string → bool.
Variable parseDate : string → option Z.

Local Abbreviation handle := (Server.handle regexI textSearch isDate parseDate).
Local Abbreviation run := (Server.run regexI textSearch isDate parseDate).

Lemma run_cons e r rs s :
  (run ((e, r) :: rs) s).2 = (run rs (handle e r s).2).2.
Proof. simpl. destruct (handle e r s) as [a s1]. simpl. by destruct (run rs s1). Qed.

Lemma handle_item_later e r s j i :
  items s !! j = Some i →
  ∃ i', items (handle e r s).2 !! j = Some i' ∧ laterItem i i'.
Proof.
  intros Hj.
  destruct (handle_items regexI textSearch isDate parseDate e r s)
    as [->|[(id & item & item' & Hid & Hlater & -> & _)
           |(item & user & b & _ & Hfresh & -> & _)]].
  - exists i. split; [done|apply laterItem_refl].
  - destruct (decide (id = j)) as [->|Hne].
    + rewrite lookup_insert_eq. simplify_eq. by exists item'.
    + rewrite lookup_insert_ne by done. exists i. split; [done|apply laterItem_refl].
  - rewrite lookup_insert_ne by congruence.
    exists i. split; [done|apply laterItem_refl].
Qed.

Lemma run_item_later rs s j i :
  items s !! j = Some i →
  ∃ i', items (run rs s).2 !! j = Some i' ∧ laterItem i i'.
Proof.
  revert s i. induction rs as [|[e r] rs IH]; intros s i Hj.
  - exists i. split; [done|apply laterItem_refl].
  - rewrite run_cons.
    destruct (handle_item_later e r s j i Hj) as (i1 & Hj1 & H1).
    destruct (IH _ _ Hj1) as (i2 & Hj2 & H2).
    exists i2. split; [done|]. by eapply laterItem_trans.
Qed.

Lemma handle_claim_later e r s j c :
  claims s !! j = Some c →
  claims (handle e r s).2 !! j = None
  ∨ ∃ c', claims (handle e r s).2 !! j = Some c' ∧ laterClaim c c'.
Proof.
  intros Hj.
  destruct (handle_claims regexI textSearch isDate parseDate e r s)
    as [->|[(user & itemId & message & item & m & _ & _ & _ & _ & _ & _ & _ & Hfresh & ->)
           |[(id & c0 & c' & b & item & _ & Hid & _ & _ & _ & Hlater & _ & ->)
            |(id & c0 & _ & Hid & _ & ->)]]].
  - right. exists c. split; [done|apply laterClaim_refl].
  - right. rewrite lookup_insert_ne by congruence.
    exists c. split; [done|apply laterClaim_refl].
  - right. destruct (decide (id = j)) as [->|Hne].
    + rewrite lookup_insert_eq. simplify_eq. by exists c'.
    + rewrite lookup_insert_ne by done. exists c. split; [done|apply laterClaim_refl].
  - destruct (decide (id = j)) as [->|Hne].
    + left. apply lookup_delete_eq.
    + right. rewrite lookup_delete_ne by done.
      exists c. split; [done|apply laterClaim_refl].
Qed.

(** X1.  Items are never lost: through any run of requests a stored item
    stays stored under its [_id], with the type, date, owner, creation
    date and tags it had, and its view count never goes down. *)
Theorem items_never_lost rs s j i :
  items s !! j = Some i →
  ∃ i', items (run rs s).2 !! j = Some i'
    ∧ Item.type i' = Item.type i ∧ Item.date i' = Item.date i
    ∧ Item.createdBy i' = Item.createdBy i
    ∧ Item.createdAt i' = Item.createdAt i ∧ Item.tags i' = Item.tags i
    ∧ (Item.views i ≤ Item.views i')%N.
Proof.
  intros Hj. destruct (run_item_later rs s j i Hj) as (i' & Hj' & Hl).
  exists i'. destruct Hl as (? & ? & ? & ? & ? & _ & _ & ?). by split_and!.
Qed.

(** X2.  No way back for an item: through any run of requests an item
    that is soft-deleted stays soft-deleted, an item whose status is not
    [active] never becomes [active] again, and a [resolved] item stays
    [resolved]. *)
Theorem item_flags_one_way rs s j i i' :
  items s !! j = Some i → items (run rs s).2 !! j = Some i' →
  (Item.isActive i = false → Item.isActive i' = false)
  ∧ (Item.status i ≠ active → Item.status i' ≠ active)
  ∧ (Item.status i = resolved → Item.status i' = resolved).
Proof.
  intros Hj Hj'. destruct (run_item_later rs s j i Hj) as (i2 & Hj2 & Hl).
  simplify_eq. destruct Hl as (_ & _ & _ & _ & _ & Hact & Hstatus & _).
  split_and!; [done| |]; intros Hst; destruct Hstatus; congruence.
Qed.

(** X3.  Who can change an item: when a request changes a stored item, it
    is served to the item's owner, or it is a [GET /items/:id] on this
    item and all it changes is the view count, which it raises as a double
    by one: by exactly one below 2^53. *)
Theorem item_changed_for_owner e r s j i i' :
  items s !! j = Some i → items (handle e r s).2 !! j = Some i' → i' ≠ i →
  requester r = Some (Item.createdBy i)
  ∨ r = Server.GetItem (GoodId j)
    ∧ i' = Item.set_views (plusOne (Item.views i)) i
    ∧ ((Item.views i < 2 ^ 53)%N → i' = Item.set_views (Item.views i + 1)%N i).
Proof.
  intros Hj Hj' Hne.
  destruct (handle_items regexI textSearch isDate parseDate e r s)
    as [Heq|[(id & item & item' & Hid & Hlater & Heq & Hwho)
            |(item & user & b & _ & Hfresh & Heq & _)]];
    rewrite Heq in Hj'.
  - congruence.
  - destruct (decide (id = j)) as [->|Hne'].
    + rewrite lookup_insert_eq in Hj'. simplify_eq.
      destruct Hwho as [?|[-> ->]]; [by left|right].
      split_and!; [done|done|]. intros Hsmall. by rewrite plusOne_small.
    + rewrite lookup_insert_ne in Hj' by done. congruence.
  - rewrite lookup_insert_ne in Hj' by congruence. congruence.
Qed.

Lemma handle_claim_absent e r s j :
  claims s !! j = None → oid e ≠ j → claims (handle e r s).2 !! j = None.
Proof.
  intros Hj Hoid.
  destruct (handle_claims regexI textSearch isDate parseDate e r s)
    as [->|[(user & itemId & message & item & m & _ & _ & _ & _ & _ & _ & _ & _ & ->)
           |[(id & c0 & c' & b & item & _ & Hid & _ & _ & _ & _ & _ & ->)
            |(id & c0 & _ & Hid & _ & ->)]]].
  - done.
  - by rewrite lookup_insert_ne.
  - rewrite lookup_insert_ne; [done|congruence].
  - destruct (decide (id = j)) as [->|Hne]; [apply lookup_delete_eq|].
    by rewrite lookup_delete_ne.
Qed.

Lemma run_claim_absent rs s j :
  claims s !! j = None → Forall (λ er, oid er.1 ≠ j) rs →
  claims (run rs s).2 !! j = None.
Proof.
  revert s. induction rs as [|[e r] rs IH]; intros s Hj Hids; [done|].
  rewrite run_cons. apply Forall_cons in Hids as [He Hids].
  apply IH; [|done]. by apply handle_claim_absent.
Qed.

(** X4.  Through any run of requests that gives no new document the
    [_id] of a stored claim, the claim is either deleted or still on the
    same item, by the same claimant, with the same message and creation
    date; and if it differs at all from what it was, it was pending and is
    no longer. *)
Theorem claims_keep_identity rs s j c :
  claims s !! j = Some c → Forall (λ er, oid er.1 ≠ j) rs →
  claims (run rs s).2 !! j = None
  ∨ ∃ c', claims (run rs s).2 !! j = Some c'
      ∧ Claim.item c' = Claim.item c ∧ Claim.claimedBy c' = Claim.claimedBy c
      ∧ Claim.message c' = Claim.message c
      ∧ Claim.createdAt c' = Claim.createdAt c
      ∧ (c' = c ∨ Claim.status c = pending ∧ Claim.status c' ≠ pending).
Proof.
  revert s c. induction rs as [|[e r] rs IH]; intros s c Hj Hids.
  - right. exists c. destruct (laterClaim_refl c) as (?&?&?&?&?). by split_and!.
  - rewrite run_cons. apply Forall_cons in Hids as [He Hids].
    destruct (handle_claim_later e r s j c Hj) as [Hgone|(c1 & Hj1 & H1)].
    + left. by apply run_claim_absent.
    + destruct (IH _ _ Hj1 Hids) as [?|(c2 & Hj2 & H2)]; [by left|].
      right. exists c2. split; [done|].
      by apply (laterClaim_trans c c1 c2).
Qed.

(** X5.  Who can remove a claim: a stored claim disappears in a request
    only if the request is a [DELETE /:claimId] on it served to its
    claimant, and the claim was pending. *)
Theorem claim_removed_for_claimant e r s j c :
  claims s !! j = Some c → claims (handle e r s).2 !! j = None →
  r = Server.DeleteClaim (Claim.claimedBy c) (GoodId j)
  ∧ Claim.status c = pending.
Proof.
  intros Hj Hgone.
  destruct (handle_claims regexI textSearch isDate parseDate e r s)
    as [Heq|[(user & itemId & message & item & m & _ & _ & _ & _ & _ & _ & _ & Hfresh & Heq)
           |[(id & c0 & c' & b & item & _ & Hid & _ & _ & _ & _ & _ & Heq)
            |(id & c0 & Hr & Hid & Hst & Heq)]]];
    rewrite Heq in Hgone.
  - congruence.
  - rewrite lookup_insert_ne in Hgone; congruence.
  - destruct (decide (id = j)) as [->|Hne].
    + by rewrite lookup_insert_eq in Hgone.
    + rewrite lookup_insert_ne in Hgone by done. congruence.
  - destruct (decide (id = j)) as [->|Hne].
    + by simplify_eq.
    + rewrite lookup_delete_ne in Hgone by done. congruence.
Qed.

(** X6.  Who can resolve a claim: a stored claim changes in a request only
    if the request is a [PUT /:claimId] on it served to the owner of its
    item; the claim was pending, is no longer, and names that owner as its
    resolver. *)
Theorem claim_changed_for_item_owner e r s j c c' :
  claims s !! j = Some c → claims (handle e r s).2 !! j = Some c' → c' ≠ c →
  ∃ item b,
    items s !! Claim.item c = Some item
    ∧ r = Server.PutClaim (Item.createdBy item) (GoodId j) b
    ∧ Claim.status c = pending ∧ Claim.status c' ≠ pending
    ∧ Claim.resolvedBy c' = Some (Item.createdBy item).
Proof.
  intros Hj Hj' Hne.
  destruct (handle_claims regexI textSearch isDate parseDate e r s)
    as [Heq|[(user & itemId & message & item & m & _ & _ & _ & _ & _ & _ & _ & Hfresh & Heq)
           |[(id & c0 & c1 & b & item & Hr & Hid & Hitem & Hst & Hst' & _ & Hby & Heq)
            |(id & c0 & Hr & Hid & Hst & Heq)]]];
    rewrite Heq in Hj'.
  - congruence.
  - rewrite lookup_insert_ne in Hj'; congruence.
  - destruct (decide (id = j)) as [->|Hne'].
    + rewrite lookup_insert_eq in Hj'. simplify_eq. by exists item, b.
    + rewrite lookup_insert_ne in Hj' by done. congruence.
  - destruct (decide (id = j)) as [->|Hne'].
    + by rewrite lookup_delete_eq in Hj'.
    + rewrite lookup_delete_ne in Hj' by done. congruence.
Qed.

Lemma handle_onePerPair e r s :
  onePerPair (claims s) → onePerPair (claims (handle e r s).2).
Proof.
  intros Huniq.
  destruct (handle_claims regexI textSearch isDate parseDate e r s)
    as [->|[(user & itemId & message & item & m & _ & _ & _ & _ & _ & _ & Hnone & Hfresh & ->)
           |[(id & c0 & c1 & b & item & _ & Hid & _ & _ & _ & Hlater & _ & ->)
            |(id & c0 & _ & Hid & _ & ->)]]].
  - done.
  - rewrite findClaim_None in Hnone.
    intros i j c d Hi Hj Hitem Hby.
    destruct (decide (oid e = i)) as [<-|Hi'], (decide (oid e = j)) as [<-|Hj'];
      [done| | |].
    + rewrite lookup_insert_eq in Hi. rewrite lookup_insert_ne in Hj by done.
      simplify_eq/=. by destruct (Hnone j d Hj).
    + rewrite lookup_insert_eq in Hj. rewrite lookup_insert_ne in Hi by done.
      simplify_eq/=. by destruct (Hnone i c Hi).
    + rewrite lookup_insert_ne in Hi, Hj by done. by eapply Huniq.
  - destruct Hlater as (Hitem & Hby & _).
    intros i j c d Hi Hj Hi' Hj'.
    destruct (decide (id = i)) as [<-|Hni], (decide (id = j)) as [<-|Hnj]; [done| | |].
    + rewrite lookup_insert_eq in Hi. rewrite lookup_insert_ne in Hj by done.
      simplify_eq. eapply Huniq; [done|done|congruence|congruence].
    + rewrite lookup_insert_eq in Hj. rewrite lookup_insert_ne in Hi by done.
      simplify_eq. eapply Huniq; [done|done|congruence|congruence].
    + rewrite lookup_insert_ne in Hi, Hj by done. by eapply Huniq.
  - intros i j c d Hi Hj. apply lookup_delete_Some in Hi as [_ Hi].
    apply lookup_delete_Some in Hj as [_ Hj]. by eapply Huniq.
Qed.

(** X7.  At most one claim for each item and claimant: a database in which
    no two claims are on the same item by the same claimant stays so
    through any run of requests. *)
Theorem one_claim_per_pair rs s :
  onePerPair (claims s) → onePerPair (claims (run rs s).2).
Proof.
  revert s. induction rs as [|[e r] rs IH]; intros s Huniq; [done|].
  rewrite run_cons. by apply IH, handle_onePerPair.
Qed.

Lemma handle_onOthersItems e r s :
  onOthersItems s → onOthersItems (handle e r s).2.
Proof.
  intros Hinv j c Hj.
  assert (Hkeep : ∀ c0, (∃ item, items s !! Claim.item c0 = Some item
                           ∧ Item.createdBy item ≠ Claim.claimedBy c0) →
            ∃ item, items (handle e r s).2 !! Claim.item c0 = Some item
                    ∧ Item.createdBy item ≠ Claim.claimedBy c0).
  { intros c0 (item & Hitem & Hown).
    destruct (handle_item_later e r s _ _ Hitem) as (item' & Hitem' & Hl).
    exists item'. split; [done|].
    destruct Hl as (_ & _ & Hsame & _). congruence. }
  destruct (handle_claims regexI textSearch isDate parseDate e r s)
    as [Heq|[(user & itemId & message & item & m & _ & _ & Hitem & _ & _ & Hown & _ & Hfresh & Heq)
           |[(id & c0 & c1 & b & item & _ & Hid & _ & _ & _ & Hlater & _ & Heq)
            |(id & c0 & _ & Hid & _ & Heq)]]];
    rewrite Heq in Hj.
  - apply Hkeep. by eapply Hinv.
  - destruct (decide (oid e = j)) as [<-|Hne].
    + rewrite lookup_insert_eq in Hj. simplify_eq. apply Hkeep. by exists item.
    + rewrite lookup_insert_ne in Hj by done. apply Hkeep. by eapply Hinv.
  - destruct (decide (id = j)) as [<-|Hne].
    + rewrite lookup_insert_eq in Hj. simplify_eq. apply Hkeep.
      destruct Hlater as (-> & -> & _). by eapply Hinv.
    + rewrite lookup_insert_ne in Hj by done. apply Hkeep. by eapply Hinv.
  - apply lookup_delete_Some in Hj as [_ Hj]. apply Hkeep. by eapply Hinv.
Qed.

(** X8.  Nobody holds a claim on their own item: a database in which every
    claim is on a stored item that its claimant does not own stays so
    through any run of requests. *)
Theorem claims_on_others_items rs s :
  onOthersItems s → onOthersItems (run rs s).2.
Proof.
  revert s. induction rs as [|[e r] rs IH]; intros s Hinv; [done|].
  rewrite run_cons. by apply IH, handle_onOthersItems.
Qed.

End Histories.

(** ** Sorted answers *)

Lemma newerFirst_trans {A} (f : A → Z) : Transitive (newerFirst f).
Proof. unfold newerFirst. intros x y z ??. lia. Qed.

Lemma newerFirst_total {A} (f : A → Z) : Total (newerFirst f).
Proof. unfold newerFirst. intros x y. lia. Qed.

Lemma newestFirst_sorted {A} (f : A → Z) (l : list (N * A)) :
  StronglySorted (newerFirst f) (newestFirst f l).
Proof.
  exact (@StronglySorted_merge_sort _ (newerFirst f) _
           (newerFirst_trans f) (newerFirst_total f) l).
Qed.

Lemma newestFirst_NoDup {A} (f : A → Z) (l : list (N * A)) :
  NoDup l → NoDup (newestFirst f l).
Proof. unfold newestFirst. by rewrite merge_sort_Permutation. Qed.

Lemma StronglySorted_take_drop {A} (R : relation A) (l : list A) n m :
  StronglySorted R l → StronglySorted R (take n (drop m l)).
Proof.
  intros Hl. rewrite <-(take_drop m l) in Hl.
  apply StronglySorted_app_1_r in Hl.
  rewrite <-(take_drop n (drop m l)) in Hl.
  by apply StronglySorted_app_1_l in Hl.
Qed.

Lemma NoDup_take_drop {A} (l : list A) n m : NoDup l → NoDup (take n (drop m l)).
Proof.
  intros Hl. apply (sublist_NoDup _ (drop m l)); [|apply sublist_take].
  by apply (sublist_NoDup _ l); [|apply sublist_drop].
Qed.

(** ** More on the claims routes *)

(** X9.  [POST /:itemId] answers 201 exactly when the message, trimmed,
    has 20 to 1000 characters, the item is stored, active and of status
    [active], the requester is not its owner and has no claim on it, and
    the new [_id] is free; any other answer leaves the database as it
    was. *)
Theorem submit_succeeds_iff e user itemId message s :
  (code (ClaimRoutes.submit e user (GoodId itemId) message s).1 = 201 ↔
   ∃ raw item,
     message = Some raw
     ∧ (20 ≤ String.length (trim raw) ≤ 1000)%nat
     ∧ items s !! itemId = Some item
     ∧ Item.isActive item = true ∧ Item.status item = active
     ∧ Item.createdBy item ≠ user
     ∧ (∀ j c, claims s !! j = Some c → Claim.item c = itemId →
               Claim.claimedBy c ≠ user)
     ∧ claims s !! oid e = None)
  ∧ (code (ClaimRoutes.submit e user (GoodId itemId) message s).1 ≠ 201 →
     (ClaimRoutes.submit e user (GoodId itemId) message s).2 = s).
Proof.
  split; [split|].
  - unfold ClaimRoutes.submit, ClaimRoutes.validateMessage.
    destruct message as [raw|]; [|done].
    destruct (isLength 20 1000 (trim raw)) eqn:Hlen; [|done].
    repeat case_match; simplify_eq; try done. intros _.
    match goal with H : insertClaim _ _ _ = Some _ |- _ =>
      apply insertClaim_Some in H as [Hfresh ->] end.
    match goal with H : _ || _ = false |- _ =>
      apply orb_false_iff in H as [Hact%negb_false_iff Hst%bool_decide_eq_false] end.
    apply dec_stable in Hst.
    match goal with H : bool_decide (_ = _) = false |- _ =>
      apply bool_decide_eq_false in H end.
    unfold isLength in Hlen.
    apply andb_true_iff in Hlen as [Hlo%Nat.leb_le Hhi%Nat.leb_le].
    eexists _, _. split_and!; try done. by apply findClaim_None.
  - intros (raw & item & -> & [Hlo Hhi] & Hitem & Hact & Hst & Hown & Hnone & Hfresh).
    erewrite submit_creates; try done.
    + unfold ClaimRoutes.validateMessage, isLength.
      apply Nat.leb_le in Hlo, Hhi. by rewrite Hlo, Hhi.
    + by apply findClaim_None.
  - unfold ClaimRoutes.submit. by repeat case_match.
Qed.

(** X10.  Withdrawing a claim frees the pair: in a database with at most
    one claim for each item and claimant, once the claimant has deleted a
    pending claim on an item that is still on offer, a new claim by the
    same claimant on that item is accepted. *)
Theorem resubmit_after_delete e user claimId message s c item m :
  onePerPair (claims s) →
  claims s !! claimId = Some c → Claim.claimedBy c = user →
  Claim.status c = pending →
  items s !! Claim.item c = Some item →
  Item.isActive item = true → Item.status item = active →
  Item.createdBy item ≠ user →
  ClaimRoutes.validateMessage message = Some m →
  (oid e = claimId ∨ claims s !! oid e = None) →
  let s1 := (ClaimRoutes.remove user (GoodId claimId) s).2 in
  code (ClaimRoutes.remove user (GoodId claimId) s).1 = 200
  ∧ code (ClaimRoutes.submit e user (GoodId (Claim.item c)) message s1).1 = 201.
Proof.
  intros Huniq Hc Hby Hst Hitem Hact Hstatus Hown Hm Hoid.
  unfold ClaimRoutes.remove. rewrite Hc.
  rewrite bool_decide_eq_false_2 by naive_solver.
  rewrite bool_decide_eq_false_2 by naive_solver.
  simpl. split; [done|].
  erewrite submit_creates; try done; simpl.
  - apply findClaim_None. intros j d Hj Hi Hu.
    apply lookup_delete_Some in Hj as [Hne Hj].
    apply Hne. eapply Huniq; [done|done|congruence|congruence].
  - destruct Hoid as [->|Hfree]; [apply lookup_delete_eq|].
    apply lookup_delete_None. by right.
Qed.

Lemma resolve_approved e user claimId b s c notes :
  claims s !! claimId = Some c →
  ClaimRoutes.validateResolve b = Some (approved, notes) →
  code (ClaimRoutes.resolve e user (GoodId claimId) b s).1 = 200 →
  ∃ item, items s !! Claim.item c = Some item
    ∧ items (ClaimRoutes.resolve e user (GoodId claimId) b s).2
      = <[Claim.item c := Item.set_status resolved item]> (items s).
Proof.
  intros Hc Hb. unfold ClaimRoutes.resolve, saveClaim, saveItem.
  rewrite Hb, Hc. rewrite (bool_decide_eq_true_2 (approved = approved)) by done.
  destruct (items s !! Claim.item c) as [item|]; [|done].
  repeat case_match; simplify_eq/=; try done. intros _. by exists item.
Qed.

(** X11.  An approved claim closes the item: after a [PUT /:claimId] that
    approves a claim and is answered 200, every [POST /:itemId] on the
    claim's item, by anyone, changes nothing, and one that passes
    validation is answered 404. *)
Theorem approved_item_takes_no_claims e user claimId b s c notes e' user' message :
  claims s !! claimId = Some c →
  ClaimRoutes.validateResolve b = Some (approved, notes) →
  code (ClaimRoutes.resolve e user (GoodId claimId) b s).1 = 200 →
  let s1 := (ClaimRoutes.resolve e user (GoodId claimId) b s).2 in
  (ClaimRoutes.submit e' user' (GoodId (Claim.item c)) message s1).2 = s1
  ∧ (is_Some (ClaimRoutes.validateMessage message) →
     (ClaimRoutes.submit e' user' (GoodId (Claim.item c)) message s1).1
     = Res 404 (Msg "Item not found or no longer available")).
Proof.
  intros Hc Hb Hok.
  destruct (resolve_approved e user claimId b s c notes Hc Hb Hok)
    as (item & Hitem & Hitems).
  cbv zeta. unfold ClaimRoutes.submit. rewrite Hitems, lookup_insert_eq. simpl.
  rewrite orb_true_r. split; [by case_match|]. by intros [m ->].
Qed.

(** X12.  [GET /item/:itemId] on a stored, active item: the owner gets,
    with 200, exactly the claims on the item, each once and newest first;
    anyone else gets 403 and no claim. *)
Theorem item_claims_owner_only user itemId s item :
  items s !! itemId = Some item → Item.isActive item = true →
  (Item.createdBy item = user →
   ∃ l, ClaimRoutes.itemClaims user (GoodId itemId) s = (Res 200 (ClaimList l), s)
     ∧ (∀ j c, (j, c) ∈ l ↔ claims s !! j = Some c ∧ Claim.item c = itemId)
     ∧ NoDup l ∧ StronglySorted (newerFirst Claim.createdAt) l)
  ∧ (Item.createdBy item ≠ user →
     ClaimRoutes.itemClaims user (GoodId itemId) s
     = (Res 403 (Msg "Not authorized to view claims for this item"), s)).
Proof.
  intros Hitem Hact. unfold ClaimRoutes.itemClaims. rewrite Hitem, Hact. simpl.
  split; intros Hown.
  - rewrite bool_decide_eq_false_2 by naive_solver.
    eexists. split; [done|]. unfold ClaimRoutes.getItemClaims. split_and!.
    + intros j c. rewrite elem_of_newestFirst, list_elem_of_filter,
        elem_of_map_to_list. simpl. naive_solver.
    + apply newestFirst_NoDup, NoDup_filter, NoDup_map_to_list.
    + apply newestFirst_sorted.
  - by rewrite bool_decide_eq_true_2.
Qed.

(** X13.  [GET /mine] always answers 200, changes nothing, and lists
    exactly the requester's claims, each once and newest first. *)
Theorem my_claims_are_mine user s :
  ∃ l, ClaimRoutes.myClaims user s = (Res 200 (ClaimList l), s)
    ∧ (∀ j c, (j, c) ∈ l ↔ claims s !! j = Some c ∧ Claim.claimedBy c = user)
    ∧ NoDup l ∧ StronglySorted (newerFirst Claim.createdAt) l.
Proof.
  eexists. split; [done|]. unfold ClaimRoutes.getUserClaims. split_and!.
  - intros j c. rewrite elem_of_newestFirst, list_elem_of_filter,
      elem_of_map_to_list. simpl. naive_solver.
  - apply newestFirst_NoDup, NoDup_filter, NoDup_map_to_list.
  - apply newestFirst_sorted.
Qed.

(** ** More on the items routes *)

Section Catalogue.

Variable regexI : string → option (string → bool).
Variable textSearch : string → Item.t → bool.
Variable isDate : string → bool.
Variable parseDate : string → option Z.

Local Abbreviation listItems := (ItemRoutes.listItems regexI textSearch parseDate).
Local Abbreviation getFilteredItems :=
  (ItemRoutes.getFilteredItems regexI textSearch parseDate).
Local Abbreviation run := (Server.run regexI textSearch isDate parseDate).

Lemma getFilteredItems_ordered f its l :
  getFilteredItems f its = Some l →
  NoDup l ∧ StronglySorted (newerFirst Item.createdAt) l.
Proof.
  unfold ItemRoutes.getFilteredItems, ItemRoutes.find. intros Hl.
  destruct (ItemRoutes.compile _ _ _ _) as [p|]; [|done].
  simpl in Hl. simplify_eq. split; [|apply newestFirst_sorted].
  apply newestFirst_NoDup, NoDup_filter, NoDup_map_to_list.
Qed.

Lemma pageCount_ceiling total limit :
  (1 ≤ limit)%Z →
  (Z.of_nat total ≤ ItemRoutes.pageCount total limit * limit
   < Z.of_nat total + limit)%Z.
Proof.
  intros Hl. unfold ItemRoutes.pageCount.
  pose proof (Z.div_mod (Z.of_nat total + limit - 1) limit) as Hdiv.
  pose proof (Z.mod_pos_bound (Z.of_nat total + limit - 1) limit) as Hmod.
  nia.
Qed.

Lemma validList_limit q :
  ItemRoutes.validList q = true →
  (1 ≤ ItemRoutes.qnumValue 20 (ItemRoutes.lq_limit q) ≤ 50)%Z
  ∧ (1 ≤ ItemRoutes.qnumValue 1 (ItemRoutes.lq_page q))%Z.
Proof.
  unfold ItemRoutes.validList, ItemRoutes.optionalInt, ItemRoutes.qnumValue.
  rewrite !andb_true_iff. intros [[_ Hpage] Hlimit].
  destruct (ItemRoutes.lq_limit q) as [[|z]|], (ItemRoutes.lq_page q) as [[|z']|];
    simpl in *; try done; rewrite ?andb_true_iff, ?Z.leb_le in *; lia.
Qed.

Lemma roundDouble_pos n : (0 < n)%N → (0 < roundDouble n)%N.
Proof.
  intros Hn. unfold roundDouble.
  destruct (N.size n <=? 53)%N eqn:Hsize; [done|].
  apply N.leb_gt in Hsize. rewrite N.size_log2 in * by lia.
  set (shift := (N.succ (N.log2 n) - 53)%N).
  assert (Hq : (0 < N.shiftr n shift)%N).
  { rewrite N.shiftr_div_pow2. apply N.div_str_pos. split; [lia|].
    etrans; [|apply N.log2_spec; lia].
    apply N.pow_le_mono_r; lia. }
  cbv zeta. rewrite N.shiftl_mul_pow2.
  apply N.mul_pos_pos; [|lia].
  case_match; lia.
Qed.

(** X14.  A page of [GET /items]: it holds at most [limit] items, with
    [limit] between 1 and 50 (20 when not given), each once and newest
    first; [total] counts at least the items shown; [current] is the page
    asked for as [parseInt] reads it, the nearest double, which is the
    page itself below 2^53; and [pages] is the least number of pages of
    [limit] items that hold [total] items. *)
Theorem listing_page q s l current pages total :
  (listItems q s).1 = Res 200 (ItemPage l current pages total) →
  let limit := ItemRoutes.qnumValue 20 (ItemRoutes.lq_limit q) in
  let page := ItemRoutes.qnumValue 1 (ItemRoutes.lq_page q) in
  (1 ≤ limit ≤ 50)%Z
  ∧ (length l ≤ Z.to_nat limit)%nat ∧ (length l ≤ total)%nat
  ∧ NoDup l ∧ StronglySorted (newerFirst Item.createdAt) l
  ∧ current = Z.of_N (roundDouble (Z.to_N page)) ∧ (1 ≤ current)%Z
  ∧ ((page < 2 ^ 53)%Z → current = page)
  ∧ (Z.of_nat total ≤ pages * limit < Z.of_nat total + limit)%Z.
Proof.
  unfold ItemRoutes.listItems.
  destruct (ItemRoutes.validList q) eqn:Hvalid; [|done]. cbv zeta.
  destruct (2 ^ 63 <=? _)%N; [done|].
  destruct (getFilteredItems _ _) as [all|] eqn:Hall; [|done]. simpl.
  rewrite skipDocs_drop. unfold ItemRoutes.pageNumber.
  intros [= <- <- <- <-].
  destruct (validList_limit q Hvalid) as [Hlimit Hpage].
  destruct (getFilteredItems_ordered _ _ _ Hall) as [Hnodup Hsorted].
  split_and!; try done; try lia.
  - rewrite length_take. lia.
  - rewrite length_take, length_drop. lia.
  - by apply NoDup_take_drop.
  - by apply StronglySorted_take_drop.
  - pose proof (roundDouble_pos
                  (Z.to_N (ItemRoutes.qnumValue 1 (ItemRoutes.lq_page q)))).
    lia.
  - intros Hsmall. rewrite roundDouble_small; lia.
  - apply pageCount_ceiling. lia.
  - apply pageCount_ceiling. lia.
Qed.

Ltac not_allowed :=
  let Hin := fresh "Hin" in
  let Heq := fresh "Heq" in
  simpl; intros Hin;
  repeat (apply elem_of_cons in Hin as [Heq|Hin]; [discriminate Heq|]);
  by apply elem_of_nil in Hin.

Lemma optionalIn_nonempty allowed v :
  ItemRoutes.optionalIn allowed (Some v) = true → "" ∉ allowed → truthy v = true.
Proof.
  unfold ItemRoutes.optionalIn. rewrite bool_decide_eq_true.
  intros Hin Hno. destruct v; [done|done].
Qed.

Lemma castBound_Some o b d :
  ItemRoutes.castBound parseDate o = Some b → o = Some d →
  ∃ z, parseDate d = Some z ∧ b = Some z.
Proof.
  unfold ItemRoutes.castBound. intros Hb ->.
  destruct (parseDate d) as [z|]; [|done]. simpl in Hb. simplify_eq. by exists z.
Qed.

Lemma compile_satisfies q p i :
  ItemRoutes.compile regexI textSearch parseDate q = Some p → p i = true →
  ItemRoutes.cond (ItemRoutes.q_type q)
    (λ t, String.eqb (typeName (Item.type i)) t) = true
  ∧ ItemRoutes.cond (ItemRoutes.q_category q)
      (λ c, String.eqb (categoryName (Item.category i)) c) = true
  ∧ ItemRoutes.cond (ItemRoutes.q_text q) (λ t, textSearch t i) = true
  ∧ (∀ pat, ItemRoutes.q_location q = Some pat →
       ∃ r, regexI pat = Some r ∧ r (Item.location i) = true)
  ∧ (∀ from to, ItemRoutes.q_date q = Some (from, to) →
       (∀ d, from = Some d → ∃ z, parseDate d = Some z ∧ (z ≤ Item.date i)%Z)
       ∧ (∀ d, to = Some d → ∃ z, parseDate d = Some z ∧ (Item.date i ≤ z)%Z)).
Proof.
  unfold ItemRoutes.compile. intros Hp Hi.
  destruct (ItemRoutes.compileLocation _ _) as [re|] eqn:Hre; [|done].
  destruct (ItemRoutes.castRange _ _) as [range|] eqn:Hrange; [|done].
  simpl in Hp. injection Hp as <-. unfold ItemRoutes.satisfies in Hi.
  rewrite !andb_true_iff in Hi.
  destruct Hi as [[[[[[[_ _] Htype] Hcat] Hloc] Htext] Hlo] Hhi].
  split_and!; try done.
  - intros pat Hpat. unfold ItemRoutes.compileLocation in Hre. rewrite Hpat in Hre.
    destruct (regexI pat) as [r|]; [|done]. simpl in Hre. simplify_eq.
    by exists r.
  - intros from to Hdate. unfold ItemRoutes.castRange in Hrange.
    rewrite Hdate in Hrange.
    destruct (ItemRoutes.castBound parseDate from) as [lo|] eqn:Hfrom; [|done].
    destruct (ItemRoutes.castBound parseDate to) as [hi|] eqn:Hto; [|done].
    simpl in Hrange. simplify_eq. simpl in Hlo, Hhi. split; intros d ->.
    + destruct (castBound_Some _ _ d Hfrom eq_refl) as (z & Hz & ->).
      exists z. split; [done|]. by apply Z.leb_le.
    + destruct (castBound_Some _ _ d Hto eq_refl) as (z & Hz & ->).
      exists z. split; [done|]. by apply Z.leb_le.
Qed.

Lemma given_Some v : v ≠ "" → ItemRoutes.given (Some v) = Some v.
Proof. by destruct v. Qed.

Lemma listed_in_filtered q s id i :
  (id, i) ∈ listed (listItems q s).1 →
  ItemRoutes.validList q = true
  ∧ ∃ p, ItemRoutes.compile regexI textSearch parseDate
           (ItemRoutes.buildQuery
              (ItemRoutes.Filters
                 (ItemRoutes.unlessAll (ItemRoutes.lq_type q))
                 (ItemRoutes.unlessAll (ItemRoutes.lq_category q))
                 (trim <$> ItemRoutes.lq_location q)
                 (trim <$> ItemRoutes.lq_search q)
                 (ItemRoutes.lq_dateFrom q) (ItemRoutes.lq_dateTo q))) = Some p
         ∧ p i = true ∧ items s !! id = Some i.
Proof.
  unfold ItemRoutes.listItems.
  destruct (ItemRoutes.validList q) eqn:Hvalid; [|by intros ?%elem_of_nil].
  cbv zeta. simpl negb. cbv iota.
  destruct (2 ^ 63 <=? _)%N; [by intros ?%elem_of_nil|].
  unfold ItemRoutes.getFilteredItems, ItemRoutes.find.
  destruct (ItemRoutes.compile _ _ _ _) as [p|] eqn:Hp; [|by intros ?%elem_of_nil].
  simpl. rewrite skipDocs_drop. intros Hin.
  apply subseteq_take, subseteq_drop in Hin.
  rewrite elem_of_newestFirst in Hin.
  apply list_elem_of_filter in Hin as [Hpi Hin].
  apply elem_of_map_to_list in Hin. split; [done|]. by exists p.
Qed.

(** X15.  Every item that [GET /items] returns passes each filter of the
    query: it has the type and the category asked for (unless ['all']),
    its location matches the trimmed pattern, the text index finds the
    trimmed search in it, and its date lies within the bounds given. *)
Theorem listing_respects_filters q s id i :
  (id, i) ∈ listed (listItems q s).1 →
  (∀ t, ItemRoutes.lq_type q = Some t → t ≠ "all" → typeName (Item.type i) = t)
  ∧ (∀ c, ItemRoutes.lq_category q = Some c → c ≠ "all" →
          categoryName (Item.category i) = c)
  ∧ (∀ pat, ItemRoutes.lq_location q = Some pat → trim pat ≠ "" →
          ∃ r, regexI (trim pat) = Some r ∧ r (Item.location i) = true)
  ∧ (∀ t, ItemRoutes.lq_search q = Some t → trim t ≠ "" →
          textSearch (trim t) i = true)
  ∧ (∀ d, ItemRoutes.lq_dateFrom q = Some d → d ≠ "" →
          ∃ z, parseDate d = Some z ∧ (z ≤ Item.date i)%Z)
  ∧ (∀ d, ItemRoutes.lq_dateTo q = Some d → d ≠ "" →
          ∃ z, parseDate d = Some z ∧ (Item.date i ≤ z)%Z).
Proof.
  intros Hin. destruct (listed_in_filtered q s id i Hin) as (Hvalid & p & Hp & Hpi & _).
  destruct (compile_satisfies _ p i Hp Hpi) as (Htype & Hcat & Htext & Hloc & Hdate).
  unfold ItemRoutes.validList in Hvalid. rewrite !andb_true_iff in Hvalid.
  destruct Hvalid as [[[Hvt Hvc] _] _].
  unfold ItemRoutes.buildQuery in *.
  cbn [ItemRoutes.q_type ItemRoutes.q_category ItemRoutes.q_location
       ItemRoutes.q_text ItemRoutes.q_date ItemRoutes.f_type
       ItemRoutes.f_category ItemRoutes.f_location ItemRoutes.f_search
       ItemRoutes.f_dateFrom ItemRoutes.f_dateTo] in *.
  split_and!.
  - intros t Ht Hall. rewrite Ht in Htype, Hvt.
    apply optionalIn_nonempty in Hvt; [|not_allowed].
    unfold ItemRoutes.notAll, ItemRoutes.unlessAll in Htype.
    apply String.eqb_neq in Hall. rewrite Hall in Htype.
    unfold ItemRoutes.given in Htype. rewrite Hvt, Hall in Htype. simpl in Htype.
    by apply String.eqb_eq.
  - intros c Hc Hall. rewrite Hc in Hcat, Hvc.
    apply optionalIn_nonempty in Hvc; [|not_allowed].
    unfold ItemRoutes.notAll, ItemRoutes.unlessAll in Hcat.
    apply String.eqb_neq in Hall. rewrite Hall in Hcat.
    unfold ItemRoutes.given in Hcat. rewrite Hvc, Hall in Hcat. simpl in Hcat.
    by apply String.eqb_eq.
  - intros pat Hpat Hne. apply Hloc. rewrite Hpat.
    change (trim <$> Some pat) with (Some (trim pat)). by apply given_Some.
  - intros t Ht Hne. rewrite Ht in Htext.
    change (trim <$> Some t) with (Some (trim t)) in Htext.
    by rewrite given_Some in Htext.
  - intros d Hd Hne. rewrite Hd, (given_Some d Hne) in Hdate.
    destruct (Hdate (Some d) (ItemRoutes.given (ItemRoutes.lq_dateTo q))) as [Hfrom _].
    + by destruct (ItemRoutes.given (ItemRoutes.lq_dateTo q)).
    + by apply Hfrom.
  - intros d Hd Hne. rewrite Hd, (given_Some d Hne) in Hdate.
    destruct (Hdate (ItemRoutes.given (ItemRoutes.lq_dateFrom q)) (Some d)) as [_ Hto].
    + by destruct (ItemRoutes.given (ItemRoutes.lq_dateFrom q)).
    + by apply Hto.
Qed.

(** X16.  Nothing on offer is hidden: when [GET /items] is asked for the
    first page without any filter and reports a total within the limit,
    every stored item that is active and of status [active] is on the
    page. *)
Theorem unfiltered_listing_complete limit s l current pages total j i :
  (listItems (ItemRoutes.ListQuery None None None None None limit None None) s).1
  = Res 200 (ItemPage l current pages total) →
  (Z.of_nat total ≤ ItemRoutes.qnumValue 20 limit)%Z →
  items s !! j = Some i → Item.isActive i = true → Item.status i = active →
  (j, i) ∈ l.
Proof.
  unfold ItemRoutes.listItems.
  destruct (ItemRoutes.validList _) eqn:Hvalid; [|done]. cbv zeta.
  change (ItemRoutes.skipCount _ _) with 0%N.
  unfold ItemRoutes.getFilteredItems, ItemRoutes.find. simpl.
  rewrite skipDocs_drop. simpl.
  intros [= <- _ _ <-] Htotal Hj Hact Hst.
  rewrite drop_0 in *.
  rewrite take_ge by lia.
  rewrite elem_of_newestFirst. apply list_elem_of_filter. split.
  - unfold ItemRoutes.satisfies. simpl. rewrite Hact, Hst. done.
  - by apply elem_of_map_to_list.
Qed.

Lemma requiredText_Some min max o v :
  ItemRoutes.requiredText min max o = Some v →
  (min ≤ String.length v ≤ max)%nat.
Proof.
  unfold ItemRoutes.requiredText, isLength. intros H.
  destruct o as [raw|]; [|done].
  destruct (truthy raw); [|done]. simpl in H.
  destruct (_ && _) eqn:Hlen; [|done]. simplify_eq.
  apply andb_true_iff in Hlen as [?%Nat.leb_le ?%Nat.leb_le]. done.
Qed.

Lemma parseEnum_Some {A} (name : A → string) all s a :
  parseEnum name all s = Some a → name a = s.
Proof.
  unfold parseEnum. intros H%head_Some_elem_of.
  by apply list_elem_of_filter in H as [? _].
Qed.

(** X17.  What [POST /items] stores: a 201 means that one new item was
    added under the new [_id] and nothing else changed; the item belongs
    to the requester, is active with status [active] and no views, has
    the type and category named in the body, a title of 3 to 100
    characters, a description of 10 to 1000, a location of 1 to 200, and a
    date that is not after the time of the save.  Any other answer leaves
    the database as it was. *)
Theorem created_item e user b s :
  (code (ItemRoutes.create isDate parseDate e user b s).1 = 201 →
   ∃ item,
     (ItemRoutes.create isDate parseDate e user b s).1
     = Res 201 (OneItem (oid e) item)
     ∧ items s !! oid e = None
     ∧ (ItemRoutes.create isDate parseDate e user b s).2
       = Db (<[oid e := item]> (items s)) (claims s)
     ∧ Item.createdBy item = user ∧ Item.status item = active
     ∧ Item.isActive item = true ∧ Item.views item = 0%N
     ∧ Item.createdAt item = saveTime e
     ∧ ItemRoutes.b_type b = Some (typeName (Item.type item))
     ∧ ItemRoutes.b_category b = Some (categoryName (Item.category item))
     ∧ (3 ≤ String.length (Item.title item) ≤ 100)%nat
     ∧ (10 ≤ String.length (Item.description item) ≤ 1000)%nat
     ∧ (1 ≤ String.length (Item.location item) ≤ 200)%nat
     ∧ (Item.date item ≤ saveTime e)%Z)
  ∧ (code (ItemRoutes.create isDate parseDate e user b s).1 ≠ 201 →
     (ItemRoutes.create isDate parseDate e user b s).2 = s).
Proof.
  unfold ItemRoutes.create, saveItem. cbv zeta.
  destruct (_ ≫= _) as [[[[[[title description] type] category] location] date]|]
    eqn:Hchecked; [|done].
  destruct (parseDate date) as [z|]; [|done].
  destruct (Item.schemaValid _ _) eqn:Hschema; [|done].
  destruct (items s !! oid e) eqn:Hfresh; [done|]. simpl.
  split; [|done]. intros _. eexists. split; [done|].
  destruct (ItemRoutes.requiredText 3 100 _) as [t|] eqn:Ht; [|done].
  destruct (ItemRoutes.requiredText 10 1000 _) as [d|] eqn:Hd; [|done].
  simpl in Hchecked.
  destruct (ItemRoutes.b_type b) as [ty|]; [|done]. simpl in Hchecked.
  destruct (parseEnum typeName _ ty) as [ty'|] eqn:Hty; [|done].
  destruct (ItemRoutes.b_category b) as [ca|]; [|done]. simpl in Hchecked.
  destruct (parseEnum categoryName _ ca) as [ca'|] eqn:Hca; [|done].
  simpl in Hchecked.
  destruct (match ItemRoutes.b_location b with Some _ => _ | None => _ end);
    [|done].
  simpl in Hchecked.
  destruct (match ItemRoutes.b_date b with Some _ => _ | None => _ end);
    [|done].
  simpl in Hchecked. simplify_eq.
  apply parseEnum_Some in Hty, Hca. apply requiredText_Some in Ht, Hd.
  unfold Item.schemaValid in Hschema.
  rewrite !andb_true_iff in Hschema.
  destruct Hschema as [[[[[[[_ _] _] _] Hloc] Hlen] Hdate%Z.leb_le] _].
  unfold isLength in Hlen.
  apply andb_true_iff in Hlen as [_ Hlen%Nat.leb_le].
  cbn [Item.title Item.description Item.location Item.date Item.type
       Item.category Item.createdBy Item.status Item.isActive Item.views
       Item.createdAt] in *.
  split_and!; try done; try (by rewrite ?Hty, ?Hca); try lia.
  destruct location; [done|simpl; lia].
Qed.

(** X18.  A soft-deleted item is gone for good: after any run of requests
    it is still missing from every answer of [GET /items], and the routes
    that name it answer 404, or fail on validation, and change nothing. *)
Theorem deleted_item_stays_gone rs s id item :
  items s !! id = Some item → Item.isActive item = false →
  let s' := (run rs s).2 in
  (∀ q shown, (id, shown) ∉ listed (listItems q s').1)
  ∧ (∀ e, ItemRoutes.view e (GoodId id) s' = (Res 404 (Msg "Item not found"), s'))
  ∧ (∀ e user, ItemRoutes.remove e user (GoodId id) s'
               = (Res 404 (Msg "Item not found"), s'))
  ∧ (∀ e user, ItemRoutes.resolve e user (GoodId id) s'
               = (Res 404 (Msg "Item not found"), s'))
  ∧ (∀ user, ClaimRoutes.itemClaims user (GoodId id) s'
             = (Res 404 (Msg "Item not found"), s'))
  ∧ (∀ e user b, (ItemRoutes.edit e user (GoodId id) b s').2 = s'
                 ∧ (code (ItemRoutes.edit e user (GoodId id) b s').1 = 400
                    ∨ code (ItemRoutes.edit e user (GoodId id) b s').1 = 404))
  ∧ (∀ e user m, (ClaimRoutes.submit e user (GoodId id) m s').2 = s'
                 ∧ (code (ClaimRoutes.submit e user (GoodId id) m s').1 = 400
                    ∨ code (ClaimRoutes.submit e user (GoodId id) m s').1 = 404)).
Proof.
  intros Hid Hact. destruct (run_item_later regexI textSearch isDate parseDate
                               rs s id item Hid) as (item' & Hid' & Hlater).
  destruct Hlater as (_ & _ & _ & _ & _ & Hgone & _). specialize (Hgone Hact).
  cbv zeta. set (s' := (run rs s).2) in *. clearbody s'. split_and!.
  - intros q shown Hin.
    destruct (listed_in_filtered q s' id shown Hin) as (_ & p & Hp & Hpi & Hshown).
    destruct (compile_buildQuery regexI textSearch parseDate _ p shown Hp Hpi)
      as [Hact' _].
    congruence.
  - intros e. unfold ItemRoutes.view. by rewrite Hid', Hgone.
  - intros e user. unfold ItemRoutes.remove. by rewrite Hid', Hgone.
  - intros e user. unfold ItemRoutes.resolve. by rewrite Hid', Hgone.
  - intros user. unfold ClaimRoutes.itemClaims. by rewrite Hid', Hgone.
  - intros e user b. unfold ItemRoutes.edit. cbv zeta.
    destruct (_ ≫= _) as [[[[[? ?] ?] ?] ?]|]; [|by auto].
    rewrite Hid', Hgone. by auto.
  - intros e user m. unfold ClaimRoutes.submit.
    destruct (ClaimRoutes.validateMessage m); [|by auto].
    rewrite Hid', Hgone. by auto.
Qed.

End Catalogue.

(** ** The analytics queries *)

Lemma sum_ones {A} (l : list A) : sum_list_with (λ _, 1) l = length l.
Proof. induction l; simpl; lia. Qed.

Lemma sumCond_le {A} (test : A → bool) (l : list A) :
  (Database.sumCond test l ≤ length l)%nat.
Proof.
  unfold Database.sumCond. induction l as [|x l IH]; simpl; [lia|].
  destruct (test x); lia.
Qed.

Lemma lost_plus_found (l : list Item.t) :
  Database.sumCond Database.isLost l + Database.sumCond Database.isFound l
  = length l.
Proof.
  unfold Database.sumCond, Database.isLost, Database.isFound.
  induction l as [|x l IH]; simpl; [done|].
  destruct (Item.type x); simpl; lia.
Qed.

(** X19.  The item statistics add up: [totalItems] is the number of items
    whose active flag is set, every one of them is counted as lost or as
    found but not both, and [resolvedItems] counts some of them; with no
    active item all four numbers are zero. *)
Theorem item_stats_add_up (its : gmap N Item.t) :
  let stats := Database.getItemStats its in
  Database.totalItems stats
  = length (filter (λ x, Item.isActive x.2 = true) (map_to_list its))
  ∧ Database.lostItems stats + Database.foundItems stats
    = Database.totalItems stats
  ∧ (Database.resolvedItems stats ≤ Database.totalItems stats)%nat
  ∧ (Database.totalItems stats ≤ size its)%nat.
Proof.
  cbv zeta. unfold Database.getItemStats.
  assert (Hlen : length (filter (λ i, Item.isActive i = true) (snd <$> map_to_list its))
                 = length (filter (λ x : N * Item.t, Item.isActive x.2 = true)
                             (map_to_list its))).
  { induction (map_to_list its) as [|[j i] l IH]; [done|].
    rewrite fmap_cons, !filter_cons. simpl.
    destruct (decide (Item.isActive i = true)); simpl; by rewrite IH. }
  assert (Hsize : (length (filter (λ i, Item.isActive i = true)
                             (snd <$> map_to_list its)) ≤ size its)%nat).
  { etrans; [apply length_filter|]. by rewrite length_fmap, length_map_to_list. }
  rewrite <-Hlen. clear Hlen.
  destruct (filter _ (snd <$> _)) as [|d docs] eqn:Hdocs; [simpl; lia|].
  cbn [head default id from_option Database.totalItems Database.lostItems
       Database.foundItems Database.resolvedItems].
  rewrite sum_ones, lost_plus_found.
  split_and!; [done|done|apply sumCond_le|done].
Qed.

Lemma sum_list_with_plus {A} (f g : A → nat) (l : list A) :
  sum_list_with (λ x, f x + g x) l = sum_list_with f l + sum_list_with g l.
Proof. induction l; simpl; lia. Qed.

Lemma sum_list_with_ext {A} (f g : A → nat) (l : list A) :
  (∀ x, x ∈ l → f x = g x) → sum_list_with f l = sum_list_with g l.
Proof.
  induction l as [|x l IH]; intros Hfg; simpl; [done|].
  rewrite Hfg, IH; [done| |left]. intros y ?. apply Hfg. by right.
Qed.

Lemma sum_indicator {K} `{EqDecision K} (k0 : K) (ks : list K) :
  NoDup ks → k0 ∈ ks →
  sum_list_with (λ k, if decide (k0 = k) then 1 else 0) ks = 1.
Proof.
  induction 1 as [|k ks Hnotin Hnodup IH]; intros Hin; [by apply elem_of_nil in Hin|].
  simpl. destruct (decide (k0 = k)) as [->|Hne].
  - rewrite (sum_list_with_ext _ (λ _, 0)).
    + clear. induction ks; simpl; lia.
    + intros x Hx. destruct (decide (k = x)) as [->|]; done.
  - apply elem_of_cons in Hin as [?|Hin]; [done|]. by rewrite IH.
Qed.

(** The groups of [$group] split the documents. *)
Lemma group_sizes {K} `{EqDecision K} (key : Item.t → K) (docs : list Item.t) ks :
  NoDup ks → (∀ d, d ∈ docs → key d ∈ ks) →
  sum_list_with (λ k, length (filter (λ i, key i = k) docs)) ks = length docs.
Proof.
  intros Hnodup. induction docs as [|d docs IH]; intros Hkeys.
  - clear. by induction ks.
  - rewrite (sum_list_with_ext _
       (λ k, (if decide (key d = k) then 1 else 0)
             + length (filter (λ i, key i = k) docs))).
    + rewrite sum_list_with_plus, sum_indicator, IH; [done| |done|].
      * intros d' ?. apply Hkeys. by right.
      * apply Hkeys. left.
    + intros k _. rewrite filter_cons. by destruct (decide (key d = k)).
Qed.

Lemma moreFirst_trans {K} : Transitive (@Database.moreFirst K).
Proof. unfold Database.moreFirst. intros x y z ??. lia. Qed.

Lemma moreFirst_total {K} : Total (@Database.moreFirst K).
Proof. unfold Database.moreFirst. intros x y. lia. Qed.

Section Groups.

Context {K : Type} `{EqDecision K}.
Variable key : Item.t → K.

Lemma elem_of_group docs g :
  g ∈ Database.group key docs →
  (∃ d, d ∈ docs ∧ key d = Database._id g)
  ∧ Database.count g = length (filter (λ i, key i = Database._id g) docs)
  ∧ Database.count g = Database.lostCount g + Database.foundCount g
  ∧ (1 ≤ Database.count g)%nat.
Proof.
  unfold Database.group. intros (k & -> & Hk)%list_elem_of_fmap.
  apply elem_of_remove_dups, list_elem_of_fmap in Hk as (d & -> & Hd).
  cbn [Database._id Database.count Database.lostCount Database.foundCount].
  rewrite sum_ones, lost_plus_found. split_and!; [by exists d|done|done|].
  assert (Hin : d ∈ filter (λ i, key i = key d) docs)
    by by apply list_elem_of_filter.
  destruct (filter _ docs); [by apply elem_of_nil in Hin|simpl; lia].
Qed.

Lemma group_ids docs :
  Database._id <$> Database.group key docs = remove_dups (key <$> docs).
Proof.
  unfold Database.group. generalize (remove_dups (key <$> docs)). intros l.
  induction l as [|k l IH]; [done|]. rewrite !fmap_cons. by rewrite IH.
Qed.

Lemma group_total docs :
  sum_list_with Database.count (Database.group key docs) = length docs.
Proof.
  rewrite <-(group_sizes key docs (remove_dups (key <$> docs)));
    [|apply NoDup_remove_dups
     |by intros d ?; apply elem_of_remove_dups, list_elem_of_fmap_2].
  unfold Database.group. generalize (remove_dups (key <$> docs)). intros l.
  induction l as [|k l IH]; [done|].
  rewrite fmap_cons. simpl. by rewrite sum_ones, IH.
Qed.

End Groups.

Lemma take_is_top {A} (R : relation A) (l : list A) n x y :
  StronglySorted R l → x ∈ take n l → y ∈ l → y ∉ take n l → R x y.
Proof.
  intros Hsorted Hx Hy Hny. rewrite <-(take_drop n l) in Hsorted, Hy.
  apply elem_of_app in Hy as [?|Hy]; [done|].
  by eapply StronglySorted_app_1_elem_of.
Qed.

Lemma byCount_elem_of {K} (l : list (Database.groupStats K)) g :
  g ∈ Database.byCount l ↔ g ∈ l.
Proof. unfold Database.byCount. by rewrite merge_sort_Permutation. Qed.

Lemma byCount_sorted {K} (l : list (Database.groupStats K)) :
  StronglySorted Database.moreFirst (Database.byCount l).
Proof.
  exact (@StronglySorted_merge_sort _ Database.moreFirst _
           moreFirst_trans moreFirst_total l).
Qed.

Lemma byCount_ids {K} (l : list (Database.groupStats K)) :
  NoDup (Database._id <$> l) → NoDup (Database._id <$> Database.byCount l).
Proof. unfold Database.byCount. by rewrite merge_sort_Permutation. Qed.

(** X20.  The category statistics: there is one group for each category
    that has an item on offer (active, status [active]) and none for the
    others; a group counts the items on offer of its category, each as
    lost or as found; the counts add up to the number of items on offer;
    and the groups come with the largest count first. *)
Theorem category_stats_add_up (its : gmap N Item.t) :
  let groups := Database.getItemsByCategory its in
  NoDup (Database._id <$> groups)
  ∧ (∀ c, c ∈ Database._id <$> groups ↔
          ∃ i, i ∈ Database.onOffer its ∧ Item.category i = c)
  ∧ (∀ g, g ∈ groups →
          Database.count g
          = length (filter (λ i, Item.category i = Database._id g)
                           (Database.onOffer its))
          ∧ Database.count g = Database.lostCount g + Database.foundCount g
          ∧ (1 ≤ Database.count g)%nat)
  ∧ sum_list_with Database.count groups = length (Database.onOffer its)
  ∧ StronglySorted Database.moreFirst groups.
Proof.
  cbv zeta. unfold Database.getItemsByCategory. split_and!.
  - apply byCount_ids. rewrite group_ids. apply NoDup_remove_dups.
  - intros c. unfold Database.byCount.
    rewrite merge_sort_Permutation, group_ids, elem_of_remove_dups,
      list_elem_of_fmap.
    naive_solver.
  - intros g Hg. apply (proj1 (byCount_elem_of _ _)) in Hg.
    by apply elem_of_group in Hg as (_ & ? & ? & ?).
  - unfold Database.byCount. rewrite merge_sort_Permutation. apply group_total.
  - apply byCount_sorted.
Qed.

(** X21.  The location statistics: at most ten groups, for different
    locations, with the largest count first; a group counts the items on
    offer at its location, each as lost or as found; and a location that
    is left out has no more items on offer than any location shown. *)
Theorem location_stats_top_ten (its : gmap N Item.t) :
  let groups := Database.getItemsByLocation its in
  (length groups ≤ 10)%nat
  ∧ NoDup (Database._id <$> groups)
  ∧ StronglySorted Database.moreFirst groups
  ∧ (∀ g, g ∈ groups →
          Database.count g
          = length (filter (λ i, Item.location i = Database._id g)
                           (Database.onOffer its))
          ∧ Database.count g = Database.lostCount g + Database.foundCount g
          ∧ (1 ≤ Database.count g)%nat)
  ∧ (∀ g h, g ∈ groups →
          h ∈ Database.group Item.location (Database.onOffer its) →
          h ∉ groups → (Database.count h ≤ Database.count g)%nat).
Proof.
  cbv zeta. unfold Database.getItemsByLocation. split_and!.
  - rewrite length_take. lia.
  - rewrite fmap_take. eapply sublist_NoDup; [|apply sublist_take].
    apply byCount_ids. rewrite group_ids. apply NoDup_remove_dups.
  - apply (StronglySorted_take_drop _ _ 10 0), byCount_sorted.
  - intros g Hg%subseteq_take. apply (proj1 (byCount_elem_of _ _)) in Hg.
    by apply elem_of_group in Hg as (_ & ? & ? & ?).
  - intros g h Hg Hh Hnot.
    eapply (take_is_top Database.moreFirst); [apply byCount_sorted|done| |done].
    by apply byCount_elem_of.
Qed.

(** X22.  The recent activity: with a positive limit (ten when none is
    given) it returns at most that many items, each a stored item whose
    active flag is set, each once and newest first, and every active item
    that is left out is no newer than any item returned. *)
Theorem recent_activity_newest limit (its : gmap N Item.t) :
  (0 < default 10 limit)%nat →
  let recent := Database.getRecentActivity limit its in
  (length recent ≤ default 10 limit)%nat
  ∧ NoDup recent
  ∧ StronglySorted (newerFirst Item.createdAt) recent
  ∧ (∀ j i, (j, i) ∈ recent → its !! j = Some i ∧ Item.isActive i = true)
  ∧ (∀ j i j' i', (j, i) ∈ recent →
       its !! j' = Some i' → Item.isActive i' = true → (j', i') ∉ recent →
       (Item.createdAt i' ≤ Item.createdAt i)%Z).
Proof.
  intros Hpos. cbv zeta. unfold Database.getRecentActivity, Database.limitTo.
  destruct (default 10 limit) as [|n]; [lia|].
  set (active := filter _ (map_to_list its)).
  assert (Hactive : ∀ j i, (j, i) ∈ active ↔ its !! j = Some i ∧ Item.isActive i = true).
  { intros j i. unfold active.
    rewrite list_elem_of_filter, elem_of_map_to_list. simpl. naive_solver. }
  split_and!.
  - rewrite length_take. lia.
  - eapply sublist_NoDup; [|apply sublist_take].
    apply newestFirst_NoDup, NoDup_filter, NoDup_map_to_list.
  - apply (StronglySorted_take_drop _ _ (S n) 0), newestFirst_sorted.
  - intros j i Hin%subseteq_take. rewrite elem_of_newestFirst in Hin.
    by apply Hactive.
  - intros j i j' i' Hin Hj' Hact Hnot.
    pose proof (take_is_top (newerFirst Item.createdAt) _ (S n) (j, i) (j', i')
                  (newestFirst_sorted _ _) Hin) as Htop.
    unfold newerFirst in Htop. simpl in Htop.
    apply Z.ge_le, Htop; [|done].
    rewrite elem_of_newestFirst. by apply Hactive.
Qed.

(** ** Validation on save *)

Lemma schemaValid_later t T i :
  Item.schemaValid t i = true → (t ≤ T)%Z → Item.schemaValid T i = true.
Proof.
  unfold Item.schemaValid. rewrite !andb_true_iff, !Z.leb_le.
  intros [[[[[[[? ?] ?] ?] ?] ?] ?] ?] ?. split_and!; try done. lia.
Qed.

Lemma validateMessage_Some message m :
  ClaimRoutes.validateMessage message = Some m → isLength 20 1000 m = true.
Proof.
  unfold ClaimRoutes.validateMessage. destruct message as [raw|]; [|done].
  destruct (isLength 20 1000 (trim raw)) eqn:Hlen; [|done]. by intros [= <-].
Qed.

Ltac valid_after :=
  split; simpl; intros ? ? Hj;
  repeat (apply lookup_insert_Some in Hj as [[<- <-]|[_ Hj]]);
  eauto using schemaValid_later.

Section Validity.

Variable regexI : string → option (string → bool).
Variable textSearch : string → Item.t → bool.
Variable isDate : string → bool.
Variable parseDate : string → option Z.

Local Abbreviation handle := (Server.handle regexI textSearch isDate parseDate).
Local Abbreviation run := (Server.run regexI textSearch isDate parseDate).

Lemma handle_valid e r s T :
  validAt T s → (saveTime e ≤ T)%Z → (itemSaveTime e ≤ T)%Z →
  validAt T (handle e r s).2.
Proof.
  unfold validAt, map_Forall.
  intros Hvalid Hclock Hclock'. pose proof Hvalid as [Hitems Hclaims].
  destruct r as [u i m|u i|u|u|u target b|u target|q|u|i|u b|u i b|u i|u i]; simpl.
  - unfold ClaimRoutes.submit.
    destruct (ClaimRoutes.validateMessage m) as [m'|] eqn:Hm; [|done].
    apply validateMessage_Some in Hm.
    repeat case_match; simplify_eq/=; try done.
    match goal with H : insertClaim _ _ _ = Some _ |- _ =>
      apply insertClaim_Some in H as [Hfresh ->] end.
    valid_after. unfold Claim.schemaValid. simpl. by rewrite Hm.
  - unfold ClaimRoutes.itemClaims. by repeat case_match.
  - done.
  - done.
  - unfold ClaimRoutes.resolve, saveClaim, saveItem.
    repeat case_match; simplify_eq; try done; valid_after.
  - unfold ClaimRoutes.remove.
    repeat case_match; simplify_eq/=; try done.
    split; [done|]. simpl. intros j d Hj.
    apply lookup_delete_Some in Hj as [_ Hj]. eauto.
  - unfold ItemRoutes.listItems. by repeat case_match.
  - done.
  - unfold ItemRoutes.view, ItemRoutes.incrementViews, saveItem.
    destruct i as [raw|id]; [done|].
    repeat case_match; simplify_eq/=; try done; valid_after.
  - unfold ItemRoutes.create.
    repeat case_match; simplify_eq/=; try done; valid_after.
  - unfold ItemRoutes.edit, saveItem.
    repeat case_match; simplify_eq/=; try done; valid_after.
  - unfold ItemRoutes.remove, saveItem.
    repeat case_match; simplify_eq/=; try done; valid_after.
  - unfold ItemRoutes.resolve, saveItem.
    repeat case_match; simplify_eq/=; try done; valid_after.
Qed.

(** X25.  Documents stay valid: when every stored item and claim passes
    the validators of its schema, the dates being compared with a time
    that no clock reading of a run of requests exceeds, the same holds
    after the run.  So the validation of a document that [save()] runs
    anew goes through for every document that the routes have stored,
    as long as the clock does not go back. *)
Theorem stored_documents_stay_valid rs s t T :
  validAt t s → (t ≤ T)%Z →
  Forall (λ er, (saveTime er.1 ≤ T)%Z ∧ (itemSaveTime er.1 ≤ T)%Z) rs →
  validAt T (run rs s).2.
Proof.
  intros [Hitems Hclaims] Hle.
  assert (Hvalid : validAt T s).
  { split; [|done]. intros id i Hi. eapply schemaValid_later; [|done].
    by apply (Hitems id). }
  clear Hitems Hclaims. revert s Hvalid.
  induction rs as [|[e r] rs IH]; intros s Hvalid Hclocks; [done|].
  apply Forall_cons in Hclocks as [[Hclock Hclock'] Hclocks].
  rewrite (run_cons regexI textSearch isDate parseDate).
  apply IH; [|done]. by apply handle_valid.
Qed.

End Validity.

(** X26.  An approval can stop halfway: when the item of a pending claim
    does not pass its validators at the time of its save, the owner's
    approval is answered 500 "Server error updating claim", yet the claim
    is stored as approved, with its resolver and resolution date, and the
    item is left as it was. *)
Theorem approve_half_done e user claimId b s c item notes :
  claims s !! claimId = Some c → Claim.status c = pending →
  items s !! Claim.item c = Some item → Item.createdBy item = user →
  ClaimRoutes.validateResolve b = Some (approved, notes) →
  Claim.schemaValid c = true →
  Item.schemaValid (itemSaveTime e) item = false →
  ClaimRoutes.resolve e user (GoodId claimId) b s
  = (Res 500 (Msg "Server error updating claim"),
     Db (items s)
        (<[claimId := Claim.mk (Claim.item c) (Claim.claimedBy c) (Claim.message c)
                        approved (Claim.adminNotes c) (Some (saveTime e))
                        (Some user) (Claim.createdAt c)]> (claims s))).
Proof.
  intros Hc Hst Hitem Hu Hb Hvalid Hinvalid.
  rewrite (resolve_pending e user claimId b s c item approved notes) by done.
  cbv zeta. by rewrite bool_decide_eq_true_2, Hinvalid.
Qed.

(** ** The view count *)

(** The rounding of a number of more than 53 bits, in arithmetic. *)
Lemma roundDouble_large n :
  (2 ^ 53 ≤ n)%N →
  let shift := (N.log2 n - 52)%N in
  let q := (n / 2 ^ shift)%N in
  let r := (n mod 2 ^ shift)%N in
  let half := (2 ^ (shift - 1))%N in
  (1 ≤ shift)%N
  ∧ roundDouble n
    = ((if (half <? r)%N || ((r =? half)%N && N.odd q) then q + 1 else q)
       * 2 ^ shift)%N.
Proof.
  intros Hn. cbv zeta.
  assert (53 ≤ N.log2 n)%N as Hlog.
  { apply N.log2_le_pow2; lia. }
  split; [lia|]. unfold roundDouble.
  rewrite N.size_log2 by lia.
  destruct (N.succ (N.log2 n) <=? 53)%N eqn:Hsize; [apply N.leb_le in Hsize; lia|].
  replace (N.succ (N.log2 n) - 53)%N with (N.log2 n - 52)%N by lia.
  cbv zeta.
  by rewrite N.shiftl_mul_pow2, N.shiftr_div_pow2, N.land_ones, N.shiftl_1_l.
Qed.

Lemma plusOne_roundDouble n : isDouble n → plusOne n = roundDouble (n + 1).
Proof.
  unfold isDouble. intros Hdouble. unfold plusOne.
  destruct (n <? 2 ^ 53)%N eqn:Hsmall.
  { apply N.ltb_lt in Hsmall.
    destruct (decide (n + 1 = 2 ^ 53)%N) as [->|Hne]; [by vm_compute|].
    rewrite roundDouble_small; [done|lia]. }
  apply N.ltb_ge in Hsmall.
  destruct (roundDouble_large n Hsmall) as [Hshift Hn].
  rewrite Hdouble in Hn.
  set (s := (N.log2 n - 52)%N) in *.
  match type of Hn with _ = (?x * _)%N => set (k := x) in Hn end.
  assert (Hpow : (2 ≤ 2 ^ s)%N).
  { change 2%N with (2 ^ 1)%N at 1. apply N.pow_le_mono_r; lia. }
  assert (Hlt : (n < 2 ^ N.succ (N.log2 n))%N) by (apply N.log2_spec; lia).
  assert (Hsplit : (2 ^ N.succ (N.log2 n) = 2 ^ 53 * 2 ^ s)%N).
  { rewrite <- N.pow_add_r. f_equal. lia. }
  assert (Hk : (k < 2 ^ 53)%N) by nia.
  assert (Hlog : N.log2 (n + 1) = N.log2 n).
  { apply N.log2_unique; [lia|]. split.
    - pose proof (N.log2_spec n). lia.
    - nia. }
  destruct (roundDouble_large (n + 1)) as [_ ->]; [lia|].
  rewrite Hlog. fold s.
  assert (Hq : ((n + 1) / 2 ^ s = k)%N).
  { symmetry. apply (N.div_unique _ _ _ 1%N); lia. }
  assert (Hr : ((n + 1) mod 2 ^ s = 1)%N).
  { symmetry. apply (N.mod_unique _ _ k); lia. }
  rewrite Hq, Hr.
  destruct (n <? 2 ^ 54)%N eqn:Hmid.
  - apply N.ltb_lt in Hmid.
    assert (s = 1%N) as Hs.
    { assert (N.log2 n = 53%N); [|lia].
      apply N.log2_unique; [lia|]. split; [done|]. exact Hmid. }
    clearbody k s. subst s. change (2 ^ (1 - 1))%N with 1%N.
    change (2 ^ 1)%N with 2%N in *.
    change (1 <? 1)%N with false. change (1 =? 1)%N with true.
    cbn [orb andb].
    rewrite N.div2_div. replace (n `div` 2)%N with k.
    2:{ apply (N.div_unique _ _ _ 0%N); lia. }
    rewrite <- N.negb_odd. destruct (N.odd k); simpl; lia.
  - apply N.ltb_ge in Hmid.
    assert (2 ≤ s)%N as Hs.
    { assert (54 ≤ N.log2 n)%N; [|lia]. apply N.log2_le_pow2; lia. }
    assert (Hhalf : (2 ≤ 2 ^ (s - 1))%N).
    { change 2%N with (2 ^ 1)%N at 1. apply N.pow_le_mono_r; lia. }
    replace (2 ^ (s - 1) <? 1)%N with false by (symmetry; apply N.ltb_ge; lia).
    replace (1 =? 2 ^ (s - 1))%N with false by (symmetry; apply N.eqb_neq; lia).
    simpl. lia.
Qed.

(** X24.  The count of views is kept as a double: when [GET /items/:id]
    returns an item whose count is one, the count it stores and returns is
    the double nearest to the count plus one (the one with the even
    significand when two are as near), and never a smaller count than
    before. *)
Theorem view_count_is_double_sum e id s item item' s' :
  items s !! id = Some item → isDouble (Item.views item) →
  ItemRoutes.view e (GoodId id) s = (Res 200 (OneItem id item'), s') →
  items s' !! id = Some item'
  ∧ Item.views item' = roundDouble (Item.views item + 1)
  ∧ (Item.views item ≤ Item.views item')%N.
Proof.
  intros Hitem Hdouble. unfold ItemRoutes.view, ItemRoutes.incrementViews, saveItem.
  rewrite Hitem. destruct (negb _); [done|]. cbv zeta.
  destruct (Item.schemaValid _ _); [|done]. simpl. intros [= <- <-].
  simpl. rewrite lookup_insert_eq.
  split_and!; [done|by apply plusOne_roundDouble|apply plusOne_ge].
Qed.

(** ** Calls that overlap *)

Lemma written_same {A} `{EqDecision A} (loaded memory : A) :
  Overlap.written loaded memory loaded = memory.
Proof. unfold Overlap.written. by case_bool_decide. Qed.

Lemma preSave_fields old t c :
  Claim.item (Claim.preSave old t c) = Claim.item c
  ∧ Claim.claimedBy (Claim.preSave old t c) = Claim.claimedBy c
  ∧ Claim.message (Claim.preSave old t c) = Claim.message c
  ∧ Claim.createdAt (Claim.preSave old t c) = Claim.createdAt c
  ∧ Claim.adminNotes (Claim.preSave old t c) = Claim.adminNotes c.
Proof. unfold Claim.preSave. by repeat case_match. Qed.

Lemma reject_fields e u notes c :
  Claim.item (ClaimRoutes.reject e u notes c) = Claim.item c
  ∧ Claim.claimedBy (ClaimRoutes.reject e u notes c) = Claim.claimedBy c
  ∧ Claim.message (ClaimRoutes.reject e u notes c) = Claim.message c
  ∧ Claim.createdAt (ClaimRoutes.reject e u notes c) = Claim.createdAt c.
Proof. unfold ClaimRoutes.reject. by destruct (truthy _). Qed.

(** Without another write in between, [save()] of a claim stores the
    claim that is in memory. *)
Lemma writeClaim_alone e id loaded memory s :
  claims s !! id = Some loaded →
  Claim.item memory = Claim.item loaded →
  Claim.claimedBy memory = Claim.claimedBy loaded →
  Claim.message memory = Claim.message loaded →
  Claim.createdAt memory = Claim.createdAt loaded →
  Overlap.writeClaim e id loaded memory s = saveClaim e id loaded memory s.
Proof.
  intros Hid Hitem Hby Hmessage Hat. unfold Overlap.writeClaim, saveClaim.
  destruct (preSave_fields (Some (Claim.status loaded)) (saveTime e) memory)
    as (Hitem' & Hby' & Hmessage' & Hat' & _).
  set (m := Claim.preSave _ _ memory) in *. cbv zeta.
  destruct (Claim.schemaValid m); [|done]. simpl. rewrite Hid, !written_same.
  rewrite <- Hitem, <- Hby, <- Hmessage, <- Hat.
  rewrite <- Hitem', <- Hby', <- Hmessage', <- Hat'. by destruct m.
Qed.

Lemma set_status_same i : Item.set_status (Item.status i) i = i.
Proof. by destruct i. Qed.

Lemma writeItem_alone time id item s :
  items s !! id = Some item →
  Overlap.writeItem time id item s
  = saveItem time id (Item.set_status resolved item) s.
Proof.
  intros Hid. unfold Overlap.writeItem, saveItem.
  destruct (Item.schemaValid _ _); [|done]. simpl.
  case_bool_decide as Hst; [|by rewrite Hid].
  rewrite <- Hst, set_status_same, insert_id by done. by destruct s.
Qed.

(** X27.  A [PUT /:claimId] whose turns are taken without a turn of
    another call in between gives the answer of the callback run in one
    piece, and leaves the same database. *)
Theorem alone_is_resolve c s :
  Overlap.alone c s
  = (Overlap.Answered
       (ClaimRoutes.resolve (Overlap.surroundings c) (Overlap.user c)
          (Overlap.claimId c) (Overlap.body c) s).1,
     (ClaimRoutes.resolve (Overlap.surroundings c) (Overlap.user c)
        (Overlap.claimId c) (Overlap.body c) s).2).
Proof.
  destruct c as [e u cid b]. unfold Overlap.alone, ClaimRoutes.resolve. simpl.
  destruct (ClaimRoutes.validateResolve b) as [[d notes]|]; [|done].
  destruct cid as [raw|id]; [done|].
  destruct (claims s !! id) as [claim|] eqn:Hclaim; [|done]. simpl.
  destruct (items s !! Claim.item claim) as [item|] eqn:Hitem; [|done]. simpl.
  case_bool_decide; [done|]. case_bool_decide; [done|].
  case_bool_decide.
  - rewrite writeClaim_alone by done.
    destruct (saveClaim e id claim _ s) as [[claim' s1]|] eqn:Hsaved; [|done].
    simpl. unfold saveClaim in Hsaved.
    destruct (Claim.schemaValid _); [|done]. simplify_eq.
    rewrite (proj1 (preSave_fields _ _ _)).
    simpl. rewrite writeItem_alone by done.
    by destruct (saveItem _ _ _ _).
  - destruct (reject_fields e u notes claim) as (? & ? & ? & ?).
    rewrite writeClaim_alone by done.
    by destruct (saveClaim e id claim _ s) as [[claim' s1]|].
Qed.

Lemma serve_turn calls k schedule stages s c st :
  calls !! k = Some c → stages !! k = Some st →
  Overlap.serve calls (k :: schedule) stages s
  = Overlap.serve calls schedule (<[k := (Overlap.turn c st s).1]> stages)
      (Overlap.turn c st s).2.
Proof. intros Hc Hst. simpl. rewrite Hc, Hst. by destruct (Overlap.turn c st s). Qed.

Lemma approve_valid old t e u c :
  Claim.schemaValid c = true →
  Claim.schemaValid (Claim.preSave old t (ClaimRoutes.approve e u c)) = true.
Proof.
  unfold Claim.schemaValid.
  destruct (preSave_fields old t (ClaimRoutes.approve e u c))
    as (_ & _ & -> & _ & ->). done.
Qed.

Lemma reject_valid old t e u notes c :
  Claim.schemaValid c = true →
  (∀ n, notes = Some n → isLength 0 500 n = true) →
  Claim.schemaValid (Claim.preSave old t (ClaimRoutes.reject e u notes c)) = true.
Proof.
  unfold Claim.schemaValid. intros Hvalid Hnotes.
  destruct (preSave_fields old t (ClaimRoutes.reject e u notes c))
    as (_ & _ & -> & _ & ->).
  apply andb_true_iff in Hvalid as [Hmessage Hold].
  unfold ClaimRoutes.reject. destruct notes as [n|]; simpl.
  - destruct (truthy n); simpl; rewrite Hmessage; simpl; [|done].
    by apply Hnotes.
  - by rewrite Hmessage.
Qed.

Lemma writeClaim_Some e id loaded memory s :
  is_Some (claims s !! id) →
  Claim.schemaValid (Claim.preSave (Some (Claim.status loaded)) (saveTime e) memory)
  = true →
  ∃ s', Overlap.writeClaim e id loaded memory s
        = Some (Claim.preSave (Some (Claim.status loaded)) (saveTime e) memory, s')
    ∧ items s' = items s ∧ is_Some (claims s' !! id).
Proof.
  intros [stored Hid] Hvalid. unfold Overlap.writeClaim. cbv zeta.
  rewrite Hvalid, Hid. simpl. eexists. split; [done|]. split; [done|].
  simpl. by rewrite lookup_insert_eq.
Qed.

Lemma writeItem_Some time id loaded s :
  is_Some (items s !! id) → Item.schemaValid time loaded = true →
  ∃ s', Overlap.writeItem time id loaded s = Some s'
    ∧ claims s' = claims s ∧ is_Some (items s' !! id).
Proof.
  intros [stored Hid] Hvalid. unfold Overlap.writeItem.
  change (Item.schemaValid time (Item.set_status resolved loaded))
    with (Item.schemaValid time loaded).
  rewrite Hvalid. simpl. case_bool_decide.
  - exists s. by rewrite Hid.
  - rewrite Hid. eexists. split; [done|]. split; [done|].
    simpl. by rewrite lookup_insert_eq.
Qed.

Ltac take_turn :=
  match goal with
  | |- context [Overlap.serve ?calls (?k :: ?schedule) ?stages ?s] =>
      rewrite (serve_turn calls k schedule stages s _ _ eq_refl eq_refl)
  end.

(** The turn in which a call tests what it has loaded and saves the
    claim: a pending claim in memory is enough for the test, whatever is
    stored by then. *)
Lemma turn_populated c d notes id claim item s :
  is_Some (claims s !! id) →
  Item.createdBy item = Overlap.user c → Claim.status claim = pending →
  Claim.schemaValid claim = true →
  (∀ n, notes = Some n → isLength 0 500 n = true) →
  (d = approved →
   Item.schemaValid (itemSaveTime (Overlap.surroundings c)) item = true) →
  ∃ st' s',
    Overlap.turn c (Overlap.Populated d notes id claim (Some item)) s = (st', s')
    ∧ items s' = items s ∧ is_Some (claims s' !! id)
    ∧ ((∃ claim' item',
          st' = Overlap.ClaimSaved id claim' item'
          ∧ Claim.item claim' = Claim.item claim
          ∧ Item.schemaValid (itemSaveTime (Overlap.surroundings c)) item' = true)
       ∨ (∃ a, st' = Overlap.Answered a ∧ code a = 200)).
Proof.
  intros Hid Hown Hst Hvalid Hnotes Hitem. simpl.
  rewrite bool_decide_eq_false_2 by (intros ?; congruence).
  rewrite bool_decide_eq_false_2 by (intros ?; congruence).
  case_bool_decide as Hd.
  - destruct (writeClaim_Some (Overlap.surroundings c) id claim
                (ClaimRoutes.approve (Overlap.surroundings c) (Overlap.user c) claim)
                s Hid) as (s' & -> & Hitems & Hid'); [by apply approve_valid|].
    eexists _, _. split; [done|]. split; [done|]. split; [done|]. left.
    eexists _, _. split; [done|]. split; [|by apply Hitem].
    by rewrite (proj1 (preSave_fields _ _ _)).
  - destruct (writeClaim_Some (Overlap.surroundings c) id claim
                (ClaimRoutes.reject (Overlap.surroundings c) (Overlap.user c)
                   notes claim)
                s Hid) as (s' & -> & Hitems & Hid'); [by apply reject_valid|].
    eexists _, _. split; [done|]. split; [done|]. split; [done|]. right.
    by eexists.
Qed.

(** The last turn of a call that has saved the claim, or that has its
    answer already. *)
Lemma turn_last c st k s :
  is_Some (items s !! k) →
  ((∃ id claim' item',
      st = Overlap.ClaimSaved id claim' item' ∧ Claim.item claim' = k
      ∧ Item.schemaValid (itemSaveTime (Overlap.surroundings c)) item' = true)
   ∨ (∃ a, st = Overlap.Answered a ∧ code a = 200)) →
  ∃ a s', Overlap.turn c st s = (Overlap.Answered a, s') ∧ code a = 200
    ∧ is_Some (items s' !! k).
Proof.
  intros Hk [(id & claim' & item' & -> & <- & Hvalid)|(a & -> & Ha)].
  - simpl.
    destruct (writeItem_Some (itemSaveTime (Overlap.surroundings c))
                (Claim.item claim') item' s Hk Hvalid) as (s' & -> & _ & Hk').
    by eexists _, _.
  - by exists a, s.
Qed.

(** X28.  Any pending claim can be resolved twice: when two
    [PUT /:claimId] of the owner on it, each with a valid decision,
    overlap so that both have loaded the claim before either saves it,
    both are answered 200, the claim and the item passing the validators
    that [save()] runs on them. *)
Theorem overlapping_resolves_both_go_through first second s id claim item d1 n1 d2 n2 :
  claims s !! id = Some claim → Claim.status claim = pending →
  items s !! Claim.item claim = Some item →
  Overlap.claimId first = GoodId id → Overlap.claimId second = GoodId id →
  Overlap.user first = Item.createdBy item →
  Overlap.user second = Item.createdBy item →
  ClaimRoutes.validateResolve (Overlap.body first) = Some (d1, n1) →
  ClaimRoutes.validateResolve (Overlap.body second) = Some (d2, n2) →
  Claim.schemaValid claim = true →
  (d1 = approved →
   Item.schemaValid (itemSaveTime (Overlap.surroundings first)) item = true) →
  (d2 = approved →
   Item.schemaValid (itemSaveTime (Overlap.surroundings second)) item = true) →
  ∃ a1 a2 s',
    Overlap.serve [first; second] [0; 1; 0; 1; 0; 1; 0; 1]%nat
      [Overlap.Arrived; Overlap.Arrived] s
    = ([Overlap.Answered a1; Overlap.Answered a2], s')
    ∧ code a1 = 200 ∧ code a2 = 200.
Proof.
  intros Hclaim Hst Hitem Hid1 Hid2 Hu1 Hu2 Hb1 Hb2 Hvalid Hitem1 Hitem2.
  destruct (validateResolve_Some _ _ _ Hb1) as (_ & _ & Hn1).
  destruct (validateResolve_Some _ _ _ Hb2) as (_ & _ & Hn2).
  (* both calls load the claim and its item *)
  take_turn.
  cbn [Overlap.turn]. rewrite Hb1, Hid1, Hclaim. cbn [fst snd list_insert insert].
  take_turn.
  cbn [Overlap.turn]. rewrite Hb2, Hid2, Hclaim. cbn [fst snd list_insert insert].
  take_turn.
  cbn [Overlap.turn]. rewrite Hitem. cbn [fst snd list_insert insert].
  take_turn.
  cbn [Overlap.turn]. rewrite Hitem. cbn [fst snd list_insert insert].
  (* both test the claim that they hold, and save *)
  destruct (turn_populated first d1 n1 id claim item s)
    as (st1 & s1 & Ht1 & Hitems1 & Hstored1 & Hready1); [by eauto|done..|].
  take_turn. rewrite Ht1.
  cbn [fst snd list_insert insert].
  destruct (turn_populated second d2 n2 id claim item s1)
    as (st2 & s2 & Ht2 & Hitems2 & Hstored2 & Hready2); [done..|].
  take_turn. rewrite Ht2.
  cbn [fst snd list_insert insert].
  (* both answer *)
  destruct (turn_last first st1 (Claim.item claim) s2)
    as (a1 & s3 & Ht3 & Ha1 & Hk3).
  { rewrite Hitems2, Hitems1, Hitem. by eexists. }
  { destruct Hready1 as [(claim' & item' & ? & ? & ?)|?]; [left|by right].
    by eexists _, _, _. }
  take_turn. rewrite Ht3.
  cbn [fst snd list_insert insert].
  destruct (turn_last second st2 (Claim.item claim) s3)
    as (a2 & s4 & Ht4 & Ha2 & Hk4); [done| |].
  { destruct Hready2 as [(claim' & item' & ? & ? & ?)|?]; [left|by right].
    by eexists _, _, _. }
  take_turn. rewrite Ht4.
  cbn [fst snd list_insert insert]. by exists a1, a2, s4.
Qed.

(** ** The scenario, continued *)

Import Episode.

Lemma items_never_lost_witness :
  items fresh !! 10%N = Some wallet
  ∧ ∃ i', items (Server.run anyRegex anyText noDate noParse story fresh).2 !! 10%N
          = Some i'
      ∧ Item.createdBy i' = alice ∧ Item.type i' = found.
Proof.
  split; [reflexivity|].
  destruct (items_never_lost anyRegex anyText noDate noParse story fresh 10%N
              wallet eq_refl) as (i' & Hi' & Htype & _ & Hby & _).
  exists i'. split; [exact Hi'|]. split; [exact Hby|exact Htype].
Defined.

Lemma item_flags_one_way_witness :
  items claimed !! 13%N = Some scarf ∧ Item.isActive scarf = false
  ∧ Item.isActive scarf = false.
Proof.
  split; [reflexivity|]. split; [reflexivity|].
  exact (proj1 (item_flags_one_way anyRegex anyText noDate noParse story claimed
                  13%N scarf scarf eq_refl eq_refl) eq_refl).
Defined.

Lemma item_changed_for_owner_witness :
  items fresh !! 10%N = Some wallet
  ∧ (requester (Server.GetItem (GoodId 10)) = Some (Item.createdBy wallet)
     ∨ Server.GetItem (GoodId 10) = Server.GetItem (GoodId 10)
       ∧ Item.set_views 1 wallet = Item.set_views (plusOne (Item.views wallet)) wallet
       ∧ ((Item.views wallet < 2 ^ 53)%N →
          Item.set_views 1 wallet = Item.set_views (Item.views wallet + 1)%N wallet)).
Proof.
  split; [reflexivity|].
  apply (item_changed_for_owner anyRegex anyText noDate noParse surroundings
           (Server.GetItem (GoodId 10)) fresh 10%N wallet (Item.set_views 1 wallet));
    [reflexivity|reflexivity|discriminate].
Defined.

Lemma claims_keep_identity_witness :
  claims claimed !! 100%N = Some onWallet
  ∧ (claims (Server.run anyRegex anyText noDate noParse story claimed).2 !! 100%N = None
     ∨ ∃ c', claims (Server.run anyRegex anyText noDate noParse story claimed).2 !! 100%N
             = Some c'
         ∧ Claim.item c' = 10%N ∧ Claim.claimedBy c' = bob).
Proof.
  split; [reflexivity|].
  destruct (claims_keep_identity anyRegex anyText noDate noParse story claimed
              100%N onWallet eq_refl) as [Hgone|(c' & Hc' & Hitem & Hby & _)].
  - repeat constructor; discriminate.
  - left. exact Hgone.
  - right. exists c'. split; [exact Hc'|]. split; [exact Hitem|exact Hby].
Defined.

Lemma claim_removed_for_claimant_witness :
  claims claimed !! 100%N = Some onWallet
  ∧ Server.DeleteClaim bob (GoodId 100)
    = Server.DeleteClaim (Claim.claimedBy onWallet) (GoodId 100)
  ∧ Claim.status onWallet = pending.
Proof.
  split; [reflexivity|].
  apply (claim_removed_for_claimant anyRegex anyText noDate noParse surroundings
           (Server.DeleteClaim bob (GoodId 100)) claimed 100%N onWallet);
    reflexivity.
Defined.

Lemma claim_changed_for_item_owner_witness :
  claims claimed !! 100%N = Some onWallet
  ∧ ∃ item b,
      items claimed !! Claim.item onWallet = Some item
      ∧ Server.PutClaim alice (GoodId 100) approveIt
        = Server.PutClaim (Item.createdBy item) (GoodId 100) b
      ∧ Claim.status onWallet = pending
      ∧ Claim.status onWalletApproved ≠ pending
      ∧ Claim.resolvedBy onWalletApproved = Some (Item.createdBy item).
Proof.
  split; [reflexivity|].
  apply (claim_changed_for_item_owner anyRegex anyText noDate noParse surroundings
           (Server.PutClaim alice (GoodId 100) approveIt) claimed 100%N
           onWallet onWalletApproved);
    [reflexivity|reflexivity|discriminate].
Defined.

Lemma no_claims_onePerPair : onePerPair (claims fresh).
Proof. intros i j c d Hi. simpl in Hi. rewrite lookup_empty in Hi. discriminate Hi. Defined.

Lemma one_claim_per_pair_witness :
  onePerPair (claims fresh)
  ∧ onePerPair (claims (Server.run anyRegex anyText noDate noParse story fresh).2).
Proof.
  split; [exact no_claims_onePerPair|].
  exact (one_claim_per_pair anyRegex anyText noDate noParse story fresh
           no_claims_onePerPair).
Defined.

Lemma no_claims_onOthersItems : onOthersItems fresh.
Proof. intros j c Hj. simpl in Hj. rewrite lookup_empty in Hj. discriminate Hj. Defined.

Lemma claims_on_others_items_witness :
  onOthersItems fresh
  ∧ onOthersItems (Server.run anyRegex anyText noDate noParse story fresh).2.
Proof.
  split; [exact no_claims_onOthersItems|].
  exact (claims_on_others_items anyRegex anyText noDate noParse story fresh
           no_claims_onOthersItems).
Defined.

Lemma oneClaim_onePerPair : onePerPair (claims oneClaim).
Proof.
  intros i j c d Hi Hj _ _. simpl in Hi, Hj.
  apply lookup_singleton_Some in Hi as [<- _].
  apply lookup_singleton_Some in Hj as [<- _]. reflexivity.
Defined.

Lemma resubmit_after_delete_witness :
  claims oneClaim !! 100%N = Some onWallet
  ∧ code (ClaimRoutes.remove bob (GoodId 100) oneClaim).1 = 200
  ∧ code (ClaimRoutes.submit surroundings bob (GoodId 10) (Some text)
            (ClaimRoutes.remove bob (GoodId 100) oneClaim).2).1 = 201.
Proof.
  split; [reflexivity|].
  apply (resubmit_after_delete surroundings bob 100 (Some text) oneClaim onWallet
           wallet text oneClaim_onePerPair);
    try reflexivity; [discriminate|right; reflexivity].
Defined.

Lemma approved_item_takes_no_claims_witness :
  claims claimed !! 100%N = Some onWallet
  ∧ code (ClaimRoutes.resolve surroundings alice (GoodId 100) approveIt claimed).1
    = 200
  ∧ (ClaimRoutes.submit (Env 201 3100 3101 3102) 3 (GoodId 10) (Some text)
       (ClaimRoutes.resolve surroundings alice (GoodId 100) approveIt claimed).2).1
    = Res 404 (Msg "Item not found or no longer available").
Proof.
  split; [reflexivity|]. split; [reflexivity|].
  apply (proj2 (approved_item_takes_no_claims surroundings alice 100 approveIt
                  claimed onWallet None (Env 201 3100 3101 3102) 3 (Some text)
                  eq_refl eq_refl eq_refl)).
  exists text. reflexivity.
Defined.

Lemma item_claims_owner_only_witness :
  items claimed !! 10%N = Some wallet ∧ Item.isActive wallet = true
  ∧ ClaimRoutes.itemClaims bob (GoodId 10) claimed
    = (Res 403 (Msg "Not authorized to view claims for this item"), claimed).
Proof.
  split; [reflexivity|]. split; [reflexivity|].
  apply (proj2 (item_claims_owner_only bob 10 claimed wallet eq_refl eq_refl)).
  discriminate.
Defined.

Lemma listing_page_witness :
  (ItemRoutes.listItems anyRegex anyText noParse everything claimed).1
  = Res 200 (ItemPage onOfferPage 1 1 2)
  ∧ (length onOfferPage ≤ 20)%nat ∧ NoDup onOfferPage.
Proof.
  assert (Hpage : (ItemRoutes.listItems anyRegex anyText noParse everything claimed).1
                  = Res 200 (ItemPage onOfferPage 1 1 2)) by reflexivity.
  split; [exact Hpage|].
  pose proof (listing_page anyRegex anyText noParse everything claimed
                onOfferPage 1 1 2 Hpage) as (_ & Hlen & _ & Hnodup & _).
  split; [exact Hlen|exact Hnodup].
Defined.

Lemma listing_respects_filters_witness :
  (11%N, umbrella) ∈ listed (ItemRoutes.listItems anyRegex anyText noParse lostOnly claimed).1
  ∧ typeName (Item.type umbrella) = "lost".
Proof.
  assert (Hin : (11%N, umbrella)
            ∈ listed (ItemRoutes.listItems anyRegex anyText noParse lostOnly claimed).1).
  { vm_compute. left. }
  split; [exact Hin|].
  apply (proj1 (listing_respects_filters anyRegex anyText noParse lostOnly claimed
                  11%N umbrella Hin) "lost"); [reflexivity|discriminate].
Defined.

Lemma unfiltered_listing_complete_witness :
  items claimed !! 10%N = Some wallet ∧ (10%N, wallet) ∈ onOfferPage.
Proof.
  split; [reflexivity|].
  apply (unfiltered_listing_complete anyRegex anyText noParse None claimed
           onOfferPage 1 1 2 10%N wallet); try reflexivity. simpl. lia.
Defined.

Lemma deleted_item_stays_gone_witness :
  items claimed !! 13%N = Some scarf ∧ Item.isActive scarf = false
  ∧ ItemRoutes.view surroundings (GoodId 13)
      (Server.run anyRegex anyText noDate noParse story claimed).2
    = (Res 404 (Msg "Item not found"),
       (Server.run anyRegex anyText noDate noParse story claimed).2).
Proof.
  split; [reflexivity|]. split; [reflexivity|].
  exact (proj1 (proj2 (deleted_item_stays_gone anyRegex anyText noDate noParse
                         story claimed 13%N scarf eq_refl eq_refl)) surroundings).
Defined.

Lemma recent_activity_newest_witness :
  (0 < default 10 (@None nat))%nat
  ∧ (length (Database.getRecentActivity None itemsOfAlice) ≤ 10)%nat.
Proof.
  assert (Hpos : (0 < default 10 (@None nat))%nat) by (simpl; lia).
  split; [exact Hpos|].
  exact (proj1 (recent_activity_newest None itemsOfAlice Hpos)).
Defined.

Lemma view_count_is_double_sum_witness :
  items popular !! 20%N = Some wellWorn
  ∧ isDouble (Item.views wellWorn)
  ∧ Item.views (Item.set_views 9007199254740992 wellWorn)
    = roundDouble (Item.views wellWorn + 1)
  ∧ roundDouble (Item.views wellWorn + 1) = 9007199254740992%N.
Proof.
  split; [reflexivity|]. split; [reflexivity|].
  split; [|reflexivity].
  exact (proj1 (proj2 (view_count_is_double_sum surroundings 20%N popular wellWorn
                         (Item.set_views 9007199254740992 wellWorn)
                         (Db {[ 20%N := Item.set_views 9007199254740992 wellWorn ]} ∅)
                         eq_refl eq_refl eq_refl))).
Defined.

Lemma fresh_valid : validAt 1300 fresh.
Proof. unfold validAt. apply (bool_decide_unpack _). vm_compute. exact I. Defined.

Lemma stored_documents_stay_valid_witness :
  validAt 1300 fresh
  ∧ validAt 3302 (Server.run anyRegex anyText noDate noParse story fresh).2.
Proof.
  split; [exact fresh_valid|].
  apply (stored_documents_stay_valid anyRegex anyText noDate noParse story fresh
           1300 3302 fresh_valid); [lia|].
  repeat constructor; simpl; lia.
Defined.

Lemma approve_half_done_witness :
  claims claimed !! 100%N = Some onWallet
  ∧ Item.schemaValid (itemSaveTime clockBehind) wallet = false
  ∧ ClaimRoutes.resolve clockBehind alice (GoodId 100) approveIt claimed
    = (Res 500 (Msg "Server error updating claim"),
       Db itemsOfAlice
          (<[100%N := Claim.mk 10 bob text approved None (Some 901%Z) (Some alice)
                        2000]> (claims claimed))).
Proof.
  split; [reflexivity|]. split; [reflexivity|].
  exact (approve_half_done clockBehind alice 100 approveIt claimed onWallet wallet
           None eq_refl eq_refl eq_refl eq_refl eq_refl eq_refl eq_refl).
Defined.

Lemma overlapping_resolves_both_go_through_witness :
  claims claimed !! 100%N = Some onWallet
  ∧ Claim.status onWallet = pending
  ∧ ∃ a1 a2 s',
      Overlap.serve [approving; rejecting] [0; 1; 0; 1; 0; 1; 0; 1]%nat
        [Overlap.Arrived; Overlap.Arrived] claimed
      = ([Overlap.Answered a1; Overlap.Answered a2], s')
      ∧ code a1 = 200 ∧ code a2 = 200.
Proof.
  split; [reflexivity|]. split; [reflexivity|].
  exact (overlapping_resolves_both_go_through approving rejecting claimed 100
           onWallet wallet approved None rejected (Some "not yours")
           eq_refl eq_refl eq_refl eq_refl eq_refl eq_refl eq_refl eq_refl eq_refl
           eq_refl (λ _, eq_refl) (λ _, eq_refl)).
Defined.
